(** * OpenPlayerJS: the [Media] dispatcher and the [YouTubeMedia] adapter

    A shallow embedding of the module that defines class [Media] and of
    [src/js/media/youtube.js] (class [YouTubeMedia]).

    JavaScript values are a small inductive type; arrays live in a heap and
    are passed by reference; promises and the microtask queue are explicit;
    every method is a computation in a state-and-exception monad in which the
    state survives a [throw].  Calls that leave the two modelled classes
    (adapter constructors and methods, element methods, [console.log]) are
    recorded in a trace of events. *)

From Stdlib Require Import String List ZArith Bool Lia.
From stdpp Require Import base list.
Import ListNotations.
Open Scope string_scope.
Open Scope list_scope.

(** ** JavaScript values *)

#[local] Set Warnings "-register-all".

Inductive value : Type :=
| VUndefined
| VNull
| VBool (b : bool)
| VNum (n : Z)
| VStr (s : string)
| VObj (fields : list (string * value))   (* object literal, by value *)
| VArr (r : nat).                         (* array, by reference *)

Inductive exn : Type :=
| TypeError (msg : string)
| ReferenceError (msg : string)
| ExtError (who : string).                (* thrown by code outside the model *)

(** [typeof v] *)
Definition typeof (v : value) : string :=
  match v with
  | VUndefined => "undefined"
  | VNull => "object"
  | VBool _ => "boolean"
  | VNum _ => "number"
  | VStr _ => "string"
  | VObj _ => "object"
  | VArr _ => "object"
  end.

(** [Array.isArray(v)] *)
Definition isArray (v : value) : bool :=
  match v with VArr _ => true | _ => false end.

(** [!!v] *)
Definition truthy (v : value) : bool :=
  match v with
  | VUndefined | VNull => false
  | VBool b => b
  | VNum n => negb (Z.eqb n 0)
  | VStr s => negb (String.eqb s "")
  | VObj _ | VArr _ => true
  end.

(** [a || b] *)
Definition js_or (a b : value) : value := if truthy a then a else b.

(** [v === s] for a string [s] *)
Definition strict_eq_str (v : value) (s : string) : bool :=
  match v with VStr t => String.eqb t s | _ => false end.

Fixpoint assoc (k : string) (fs : list (string * value)) : option value :=
  match fs with
  | [] => None
  | (k', v) :: fs' => if String.eqb k k' then Some v else assoc k fs'
  end.

(** ** Results and the state-and-exception monad *)

Inductive result (A : Type) : Type :=
| Ok (a : A)
| Throw (e : exn).
Arguments Ok {A} a.
Arguments Throw {A} e.

(** [v.name]: reading a property of [undefined] or [null] throws. *)
Definition get_prop (v : value) (name : string) : result value :=
  match v with
  | VUndefined => Throw (TypeError "Cannot read properties of undefined")
  | VNull => Throw (TypeError "Cannot read properties of null")
  | VObj fs => Ok (default VUndefined (assoc name fs))
  | _ => Ok VUndefined
  end.

Definition has_field (name : string) (v : value) : bool :=
  match v with
  | VObj fs => match assoc name fs with Some _ => true | None => false end
  | _ => false
  end.

Definition M (S A : Type) : Type := S -> result A * S.

Definition ret {S A} (a : A) : M S A := fun s => (Ok a, s).
Definition throw {S A} (e : exn) : M S A := fun s => (Throw e, s).
Definition bind {S A B} (m : M S A) (f : A -> M S B) : M S B :=
  fun s => match m s with
           | (Ok a, s') => f a s'
           | (Throw e, s') => (Throw e, s')
           end.
(** [try { m } catch (e) { h e }]: the state reached at the throw is kept. *)
Definition try_catch {S A} (m : M S A) (h : exn -> M S A) : M S A :=
  fun s => match m s with
           | (Ok a, s') => (Ok a, s')
           | (Throw e, s') => h e s'
           end.
Definition lift_result {S A} (r : result A) : M S A := fun s => (r, s).
Definition gets {S A} (f : S -> A) : M S A := fun s => (Ok (f s), s).
Definition modify {S} (f : S -> S) : M S unit := fun s => (Ok tt, f s).

Declare Scope js_scope.
Delimit Scope js_scope with js.
Notation "x <- m ;; k" := (bind m (fun x => k))
  (at level 100, m at next level, right associativity) : js_scope.
Notation "m ;; k" := (bind m (fun _ => k))
  (at level 100, right associativity) : js_scope.
Open Scope js_scope.

(** ** DOM elements *)

Record SourceTag : Type := {
  st_src : string;               (* item.src *)
  st_type : option string        (* item.getAttribute('type') *)
}.

Record Element : Type := {
  tagName : string;
  el_src : string;               (* element.src *)
  el_type : option string;       (* element.getAttribute('type') *)
  el_sources : list SourceTag    (* element.querySelectorAll('source') *)
}.

(** [getAttribute] answers [null] for an absent attribute. *)
Definition getAttribute (a : option string) : value :=
  match a with Some s => VStr s | None => VNull end.

(** [HTMLMediaElement] (video, audio) defines [play] and [pause]; other
    elements, iframes included, do not. *)
Definition element_has (el : Element) (m : string) : bool :=
  (String.eqb (tagName el) "VIDEO" || String.eqb (tagName el) "AUDIO")
  && (String.eqb m "play" || String.eqb m "pause").

(** ** Adapters *)

Inductive AdapterClass : Type :=
| NativeMedia | HlsMedia | DashMedia
| DailymotionMedia | FacebookMedia | TwitchMedia | VimeoMedia
| YouTubeMedia.

Definition class_name (k : AdapterClass) : string :=
  match k with
  | NativeMedia => "NativeMedia" | HlsMedia => "HlsMedia"
  | DashMedia => "DashMedia" | DailymotionMedia => "DailymotionMedia"
  | FacebookMedia => "FacebookMedia" | TwitchMedia => "TwitchMedia"
  | VimeoMedia => "VimeoMedia" | YouTubeMedia => "YouTubeMedia"
  end.

(** An adapter instance: [this.element], [this.media] (the descriptor it was
    built from) and [this.promise] (its readiness promise). *)
Record Adapter : Type := {
  a_class : AdapterClass;
  a_element : Element;
  a_media : value;
  a_promise : nat
}.

(** The value of [this.media] in a [Media] object. *)
Inductive slot : Type :=
| SUndefined
| SNull
| SAdapter (a : Adapter).

Inductive Target : Type :=
| TAdapter (a : Adapter)
| TElement (el : Element).

(** ** Promises, microtasks and the trace *)

(** The four closures the [Media] class hands to [then]. *)
Inductive callback : Type :=
| CbLoad                      (* () => { this.media.load(); } *)
| CbPlayOuter                 (* () => { this.media.promise.then(...) } *)
| CbPlayInner                 (* () => { target.play(); } *)
| CbPause (target : Target).  (* () => { target.pause(); } *)

Inductive pstate : Type :=
| Pending (reactions : list (callback * nat))
| Fulfilled
| Rejected (e : exn).

Inductive job : Type :=
| JRun (cb : callback) (derived : nat)
| JPass (e : exn) (derived : nat).

Inductive Event : Type :=
| EvNew (k : AdapterClass) (el : Element) (d : value)
| EvCanPlayType (a : Adapter) (mime : value)
| EvCall (t : Target) (method : string) (args : list value)
| EvConsoleLog (a : Adapter).

Record World : Type := {
  arrays : list (list (option value));   (* [None] is a hole *)
  promises : list pstate;
  jobs : list job;
  trace : list Event
}.

Definition set_arrays f (w : World) : World :=
  {| arrays := f (arrays w); promises := promises w; jobs := jobs w; trace := trace w |}.
Definition set_promises f (w : World) : World :=
  {| arrays := arrays w; promises := f (promises w); jobs := jobs w; trace := trace w |}.
Definition set_jobs f (w : World) : World :=
  {| arrays := arrays w; promises := promises w; jobs := f (jobs w); trace := trace w |}.
Definition set_trace f (w : World) : World :=
  {| arrays := arrays w; promises := promises w; jobs := jobs w; trace := f (trace w) |}.

Definition log (e : Event) : M World unit := modify (set_trace (fun t => t ++ [e])).
Definition enqueue (j : job) : M World unit := modify (set_jobs (fun q => q ++ [j])).

(** [[]]: a fresh empty array *)
Definition new_array : M World nat :=
  fun w => (Ok (length (arrays w)), set_arrays (fun h => h ++ [[]]) w).

(** [[x, y, ...]]: an array literal; [None] marks an elided element. *)
Definition array_literal (xs : list (option value)) : M World nat :=
  fun w => (Ok (length (arrays w)), set_arrays (fun h => h ++ [xs]) w).

(** [a.push(v)] *)
Definition array_push (r : nat) (v : value) : M World unit :=
  modify (set_arrays (fun h => match h !! r with
                               | Some xs => <[r := xs ++ [Some v]]> h
                               | None => h
                               end)).

Definition array_get (r : nat) (w : World) : list (option value) :=
  default [] (arrays w !! r).

(** A new promise in the given state. *)
Definition new_promise (st : pstate) : M World nat :=
  fun w => (Ok (length (promises w)), set_promises (fun ps => ps ++ [st]) w).

(** [p.then(cb)] with no rejection handler: returns the derived promise. *)
Definition then_ (p : nat) (cb : callback) : M World nat :=
  st <- gets (fun w => promises w !! p) ;;
  match st with
  | None => throw (TypeError "then is not a function")
  | Some st =>
      q <- new_promise (Pending []) ;;
      match st with
      | Fulfilled => enqueue (JRun cb q)
      | Rejected e => enqueue (JPass e q)
      | Pending rs => modify (set_promises (fun ps => <[p := Pending (rs ++ [(cb, q)])]> ps))
      end ;;
      ret q
  end.

(** Settling a pending promise schedules its reactions, in order. *)
Definition settle (q : nat) (outcome : option exn) (w : World) : World :=
  match promises w !! q with
  | Some (Pending rs) =>
      match outcome with
      | None =>
          set_jobs (fun js => js ++ map (fun r => JRun (fst r) (snd r)) rs)
            (set_promises (fun ps => <[q := Fulfilled]> ps) w)
      | Some e =>
          set_jobs (fun js => js ++ map (fun r => JPass e (snd r)) rs)
            (set_promises (fun ps => <[q := Rejected e]> ps) w)
      end
  | _ => w
  end.

(** ** What the module imports from outside the two modelled files

    [./utils/dom], [./utils/url] and the seven adapter classes other than
    [YouTubeMedia] are not part of the model: the URL and DOM helpers are
    total functions, and an outside adapter class is described by what its
    constructor and methods let [Media] observe. *)

Record Imports : Type := {
  isIframe : Element -> bool;
  predictType : value -> value;                 (* source.predictType *)
  isDailymotionSource : value -> bool;
  isFacebookSource : value -> bool;
  isTwitchSource : value -> bool;
  isVimeoSource : value -> bool;
  isYouTubeSource : value -> bool;
  isHlsSource : value -> bool;
  isDashSource : value -> bool;
  (* [new K(element, media)]: [None] when the constructor throws, else
     whether the readiness promise of the new adapter is already fulfilled *)
  ext_new : AdapterClass -> Element -> value -> option bool;
  (* [adapter.canPlayType(mime)]: [None] when the call throws *)
  ext_canPlayType : Adapter -> value -> option value;
  (* [typeof adapter.m === 'function'] *)
  ext_has : AdapterClass -> string -> bool;
  (* whether [adapter.m(...)] returns normally *)
  ext_returns : AdapterClass -> string -> bool
}.

(** An identifier that neither the module nor the host's global object
    declares: reading it throws. *)
Definition free_identifier {S} (x : string) : M S value :=
  throw (ReferenceError (x ++ " is not defined")).

(** Calling a value: no value of the model is a function. *)
Definition call_value {S} (f : value) (args : list value) : M S value :=
  throw (TypeError "is not a function").

(** ** [src/js/media/youtube.js] *)

Module YouTubeMedia.

(** [constructor(element, mediaFile)] *)
Definition constructor (element : Element) (mediaFile : value) : M World Adapter :=
  promise <- new_promise Fulfilled ;;
  ret {| a_class := YouTubeMedia; a_element := element;
         a_media := mediaFile; a_promise := promise |}.

(** [canPlayType(mimeType)] *)
Definition canPlayType (this : Adapter) (mimeType : value) : M World value :=
  if strict_eq_str mimeType "application/x-youtube" then
    type <- lift_result (get_prop (a_media this) "type") ;;
    ret (VBool (strict_eq_str type "application/x-youtube"))
  else ret (VBool false).

(** [load()] *)
Definition load (this : Adapter) : M World unit := log (EvConsoleLog this).

(** The methods the class defines. *)
Definition has (m : string) : bool :=
  String.eqb m "canPlayType" || String.eqb m "load".

End YouTubeMedia.

(** ** Class [Media] *)

Module Media.

Record t : Type := {
  element : Element;
  mediaFiles : nat;              (* reference to the array *)
  promisePlay : option nat;      (* [null] or a promise *)
  media : slot
}.

Record State : Type := { this : t; world : World }.

(** The contents of [this.mediaFiles]. *)
Definition files (s : State) : list (option value) :=
  array_get (mediaFiles (this s)) (world s).

Definition liftW {A} (m : M World A) : M State A :=
  fun s => let (r, w) := m (world s) in (r, {| this := this s; world := w |}).

(** [this.media = m] *)
Definition with_media (m : slot) (s : State) : State :=
  {| this := {| element := element (this s);
                mediaFiles := mediaFiles (this s);
                promisePlay := promisePlay (this s);
                media := m |};
     world := world s |}.
Definition set_media (m : slot) : M State unit := modify (with_media m).
Definition set_mediaFiles (r : nat) : M State unit :=
  modify (fun s => {| this := {| element := element (this s);
                                 mediaFiles := r;
                                 promisePlay := promisePlay (this s);
                                 media := media (this s) |};
                      world := world s |}).
Definition set_promisePlay (p : option nat) : M State unit :=
  modify (fun s => {| this := {| element := element (this s);
                                 mediaFiles := mediaFiles (this s);
                                 promisePlay := p;
                                 media := media (this s) |};
                      world := world s |}).

(** [Array.prototype.some]: the callback runs for present indexes only,
    in ascending order, and the loop stops at the first truthy answer. *)
Fixpoint some {S} (cb : value -> M S bool) (xs : list (option value)) : M S bool :=
  match xs with
  | [] => ret false
  | None :: xs' => some cb xs'
  | Some x :: xs' => b <- cb x ;; if b then ret true else some cb xs'
  end.

(** [NodeList.prototype.forEach] *)
Fixpoint forEach {S A} (xs : list A) (f : A -> M S unit) : M S unit :=
  match xs with
  | [] => ret tt
  | x :: xs' => f x ;; forEach xs' f
  end.

Section WithImports.
Variable I : Imports.

(** [new K(element, media)] *)
Definition new_adapter (k : AdapterClass) (el : Element) (d : value) : M World Adapter :=
  log (EvNew k el d) ;;
  match k with
  | YouTubeMedia => YouTubeMedia.constructor el d
  | _ =>
      match ext_new I k el d with
      | None => throw (ExtError (class_name k))
      | Some ready =>
          promise <- new_promise (if ready then Fulfilled else Pending []) ;;
          ret {| a_class := k; a_element := el; a_media := d; a_promise := promise |}
      end
  end.

(** [typeof a.m === 'function'] *)
Definition adapter_has (a : Adapter) (m : string) : bool :=
  match a_class a with
  | YouTubeMedia => YouTubeMedia.has m
  | k => ext_has I k m
  end.

(** [target.m(args)] for the methods [Media] calls for their effect. *)
Definition call_method (target : Target) (m : string) (args : list value) : M World unit :=
  match target with
  | TAdapter a =>
      if adapter_has a m then
        match a_class a with
        | YouTubeMedia => if String.eqb m "load" then YouTubeMedia.load a else ret tt
        | k => log (EvCall target m args) ;;
               if ext_returns I k m then ret tt
               else throw (ExtError (class_name k))
        end
      else throw (TypeError (m ++ " is not a function"))
  | TElement el =>
      if element_has el m then log (EvCall target m args)
      else throw (TypeError (m ++ " is not a function"))
  end.

(** [a.canPlayType(mime)] *)
Definition adapter_canPlayType (a : Adapter) (mime : value) : M World value :=
  if adapter_has a "canPlayType" then
    log (EvCanPlayType a mime) ;;
    match a_class a with
    | YouTubeMedia => YouTubeMedia.canPlayType a mime
    | k =>
        match ext_canPlayType I a mime with
        | Some v => ret v
        | None => throw (ExtError (class_name k))
        end
    end
  else throw (TypeError "canPlayType is not a function").

(** [_getMediaFiles()] *)
Definition _getMediaFiles (element : Element) : M World nat :=
  mediaFiles <- new_array ;;
  (if isIframe I element then
     array_push mediaFiles
       (VObj [("type", predictType I (VStr (el_src element)));
              ("src", VStr (el_src element))])
   else
     let sourceTags := el_sources element in
     nodeSource <- free_identifier "nodeSource" ;;
     (if truthy nodeSource then
        array_push mediaFiles
          (VObj [("type", js_or (getAttribute (el_type element))
                                (predictType I nodeSource));
                 ("nodeSource", nodeSource)])
      else ret tt) ;;
     forEach sourceTags (fun item =>
       let src := VStr (st_src item) in
       array_push mediaFiles
         (VObj [("type", js_or (getAttribute (st_type item)) (predictType I src));
                ("src", src)]))) ;;
  ret mediaFiles.

(** [constructor(element)]: [this.media] is not assigned, so it is
    [undefined] in a new object. *)
Definition constructor (element : Element) : M World t :=
  mediaFiles <- _getMediaFiles element ;;
  ret {| element := element; mediaFiles := mediaFiles;
         promisePlay := None; media := SUndefined |}.

(** [canPlayType(mimeType)] *)
Definition canPlayType (mimeType : value) : M State bool :=
  m <- gets (fun s => media (this s)) ;;
  match m with
  | SUndefined => throw (TypeError "Cannot read properties of undefined")
  | SNull => throw (TypeError "Cannot read properties of null")
  | SAdapter a => v <- liftW (adapter_canPlayType a mimeType) ;; ret (truthy v)
  end.

(** [_loadIframeSource(media)] *)
Definition _loadIframeSource (element : Element) (media : value) : M World slot :=
  src <- lift_result (get_prop media "src") ;;
  if isDailymotionSource I src then
    a <- new_adapter DailymotionMedia element media ;; ret (SAdapter a)
  else if isFacebookSource I src then
    a <- new_adapter FacebookMedia element media ;; ret (SAdapter a)
  else if isTwitchSource I src then
    a <- new_adapter TwitchMedia element media ;; ret (SAdapter a)
  else if isVimeoSource I src then
    a <- new_adapter VimeoMedia element media ;; ret (SAdapter a)
  else if isYouTubeSource I src then
    a <- new_adapter YouTubeMedia element media ;; ret (SAdapter a)
  else ret SNull.

(** [_loadNativeSource(media)] *)
Definition _loadNativeSource (element : Element) (media : value) : M World slot :=
  src <- lift_result (get_prop media "src") ;;
  if isHlsSource I src then
    a <- new_adapter HlsMedia element media ;; ret (SAdapter a)
  else if isDashSource I src then
    a <- new_adapter DashMedia element media ;; ret (SAdapter a)
  else
    a <- new_adapter NativeMedia element media ;; ret (SAdapter a).

(** The [try]/[catch] statement of the arrow function [load] passes to
    [some]: it assigns [this.media]. *)
Definition load_select (media : value) : M State unit :=
  element <- gets (fun s => element (this s)) ;;
  try_catch
    (m <- liftW (if isIframe I element
                 then _loadIframeSource element media
                 else _loadNativeSource element media) ;;
     set_media m)
    (fun e =>
       a <- liftW (new_adapter NativeMedia element media) ;;
       set_media (SAdapter a)).

(** The arrow function [load] passes to [some]. *)
Definition load_callback (media : value) : M State bool :=
  load_select media ;;
  type <- lift_result (get_prop media "type") ;;
  canPlayType type.

(** The second [try]/[catch] statement of [load]. *)
Definition load_finish : M State unit :=
  try_catch
    (m <- gets (fun s => media (this s)) ;;
     match m with
     | SNull =>
         throw (TypeError "Media cannot be played with any valid media type")
     | SUndefined => throw (TypeError "Cannot read properties of undefined")
     | SAdapter a => liftW (then_ (a_promise a) CbLoad) ;; ret tt
     end)
    (fun e => throw e).

(** [load()] *)
Definition load : M State unit :=
  files <- gets files ;;
  if Nat.eqb (length files) 0 then throw (TypeError "Media not set")
  else
    some load_callback files ;;
    load_finish.

(** [play()] *)
Definition play : M State nat :=
  resolved <- liftW (new_promise Fulfilled) ;;
  p <- liftW (then_ resolved CbPlayOuter) ;;
  set_promisePlay (Some p) ;;
  ret p.

(** [pause()] *)
Definition pause : M State unit :=
  m <- gets (fun s => media (this s)) ;;
  element <- gets (fun s => element (this s)) ;;
  target <- match m with
            | SUndefined => throw (TypeError "Cannot read properties of undefined")
            | SNull => throw (TypeError "Cannot read properties of null")
            | SAdapter a =>
                ret (if adapter_has a "pause" then TAdapter a else TElement element)
            end ;;
  promisePlay <- gets (fun s => promisePlay (this s)) ;;
  match promisePlay with
  | Some p => liftW (then_ p (CbPause target)) ;; ret tt
  | None => liftW (call_method target "pause" [])
  end.

(** The [if] chain of [set src(media)]: it stores the argument. *)
Definition store_src (media : value) : M State unit :=
  mediaFiles <- gets (fun s => mediaFiles (this s)) ;;
  if String.eqb (typeof media) "string" then
    predictType <- free_identifier "predictType" ;;
    type <- call_value predictType [media] ;;
    liftW (array_push mediaFiles (VObj [("src", media); ("type", type)]))
  else
    match media with
    | VArr r => set_mediaFiles r
    | _ =>
        if String.eqb (typeof media) "object"
        then liftW (array_push mediaFiles media)
        else ret tt
    end.

(** The last statement of [set src(media)]: it hands the list to the
    backend when the backend has a [src] method. *)
Definition notify_src : M State unit :=
  m <- gets (fun s => media (this s)) ;;
  match m with
  | SUndefined => throw (TypeError "Cannot read properties of undefined")
  | SNull => throw (TypeError "Cannot read properties of null")
  | SAdapter a =>
      if adapter_has a "src" then
        mediaFiles <- gets (fun s => mediaFiles (this s)) ;;
        liftW (call_method (TAdapter a) "src" [VArr mediaFiles])
      else ret tt
  end.

(** [set src(media)] *)
Definition set_src (media : value) : M State unit :=
  store_src media ;; notify_src.

(** [get src()] *)
Definition get_src : M State value :=
  mediaFiles <- gets (fun s => mediaFiles (this s)) ;;
  ret (VArr mediaFiles).

(** [destroy()] *)
Definition destroy : M State unit :=
  m <- gets (fun s => media (this s)) ;;
  match m with
  | SUndefined => throw (TypeError "Cannot read properties of undefined")
  | SNull => throw (TypeError "Cannot read properties of null")
  | SAdapter a => liftW (call_method (TAdapter a) "destroy" [])
  end.

(** *** Microtasks *)

(** Running a closure: [this.media] is read when the closure runs, not
    when it was created. *)
Definition run_callback (cb : callback) (this : t) : M World unit :=
  match cb with
  | CbLoad =>
      match media this with
      | SUndefined => throw (TypeError "Cannot read properties of undefined")
      | SNull => throw (TypeError "Cannot read properties of null")
      | SAdapter a => call_method (TAdapter a) "load" []
      end
  | CbPlayOuter =>
      match media this with
      | SUndefined => throw (TypeError "Cannot read properties of undefined")
      | SNull => throw (TypeError "Cannot read properties of null")
      | SAdapter a => then_ (a_promise a) CbPlayInner ;; ret tt
      end
  | CbPlayInner =>
      match media this with
      | SUndefined => throw (TypeError "Cannot read properties of undefined")
      | SNull => throw (TypeError "Cannot read properties of null")
      | SAdapter a =>
          let target := if adapter_has a "play" then TAdapter a
                        else TElement (element this) in
          call_method target "play" []
      end
  | CbPause target => call_method target "pause" []
  end.

(** The first job of the queue runs; its outcome settles the promise
    derived by [then]. *)
Definition run_job (s : State) : State :=
  match jobs (world s) with
  | [] => s
  | j :: rest =>
      let w := set_jobs (fun _ => rest) (world s) in
      {| this := this s;
         world := match j with
                  | JRun cb q =>
                      match run_callback cb (this s) w with
                      | (Ok _, w1) => settle q None w1
                      | (Throw e, w1) => settle q (Some e) w1
                      end
                  | JPass e q => settle q (Some e) w
                  end |}
  end.

(** The queue is drained once the running script has returned. *)
Fixpoint run_jobs (fuel : nat) (s : State) : State :=
  match fuel with
  | 0 => s
  | S n => match jobs (world s) with
           | [] => s
           | _ => run_jobs n (run_job s)
           end
  end.

(** The host fulfils the readiness promise [p] of an outside adapter
    (its library has finished loading). *)
Definition ready (p : nat) (s : State) : State :=
  {| this := this s; world := settle p None (world s) |}.

End WithImports.
End Media.

(** ** The dispatch as the specification words it

    The specification gives the choice of adapter as an ordered list of
    tests on the URL of the descriptor: the first test that succeeds names
    the class. *)

Definition first_match (tests : list (AdapterClass * (value -> bool)))
    (url : value) : option AdapterClass :=
  option_map fst (find (fun t => snd t url) tests).

(** Dailymotion, else Facebook, else Twitch, else Vimeo, else YouTube. *)
Definition spec_iframe_adapter (I : Imports) (url : value) : option AdapterClass :=
  first_match [(DailymotionMedia, isDailymotionSource I);
               (FacebookMedia, isFacebookSource I);
               (TwitchMedia, isTwitchSource I);
               (VimeoMedia, isVimeoSource I);
               (YouTubeMedia, isYouTubeSource I)] url.

(** HLS, else DASH, else native in all other cases. *)
Definition spec_native_adapter (I : Imports) (url : value) : AdapterClass :=
  default NativeMedia
    (first_match [(HlsMedia, isHlsSource I); (DashMedia, isDashSource I)] url).

(** ** Descriptors

    A media source is an object with a [src] and a [type] field. *)

Definition is_descriptor (v : value) : bool :=
  has_field "src" v && has_field "type" v.

(** Every element present in the array is a descriptor. *)
Definition all_descriptors (xs : list (option value)) : bool :=
  forallb (fun o => match o with Some v => is_descriptor v | None => true end) xs.

(** What the setter is given is made of descriptors: an object that is
    one, or an array whose elements are. *)
Definition storable (w : World) (v : value) : bool :=
  match v with
  | VObj _ => is_descriptor v
  | VArr r => all_descriptors (array_get r w)
  | _ => false
  end.

(** ** Exceptions and traces *)

(** The message guarded by the [this.media === null] test of [load]. *)
Definition no_valid_type : exn :=
  TypeError "Media cannot be played with any valid media type".

(** What a call of the [load] callback can throw. *)
Definition from_callback (e : exn) : Prop :=
  match e with
  | TypeError m =>
      m = "Cannot read properties of undefined" \/
      m = "Cannot read properties of null" \/
      m = "canPlayType is not a function"
  | ExtError _ => True
  | ReferenceError _ => False
  end.

(** The methods called on adapters and elements, in the order of the calls. *)
Fixpoint calls (t : list Event) : list string :=
  match t with
  | [] => []
  | EvCall _ m _ :: t' => m :: calls t'
  | _ :: t' => calls t'
  end.

(** ** A sample host

    Concrete URL helpers and outside adapters, used to run the model on
    explicit pages.  URLs are recognised by host name or file extension;
    the Vimeo, HLS and DASH adapters load a library first, so their
    readiness promise is still pending when the constructor returns. *)

Module Demo.

Definition contains (pat s : string) : bool :=
  match index 0 pat s with Some _ => true | None => false end.

Definition url_has (pat : string) (v : value) : bool :=
  match v with VStr s => contains pat s | _ => false end.

Definition guess_type (url : value) : value :=
  if url_has "dailymotion.com" url then VStr "video/x-dailymotion"
  else if url_has "facebook.com" url then VStr "video/x-facebook"
  else if url_has "twitch.tv" url then VStr "video/x-twitch"
  else if url_has "vimeo.com" url then VStr "video/x-vimeo"
  else if url_has "youtube.com" url then VStr "application/x-youtube"
  else if url_has ".m3u8" url then VStr "application/x-mpegURL"
  else if url_has ".mpd" url then VStr "application/dash+xml"
  else VStr "video/mp4".

Definition host : Imports := {|
  isIframe el := String.eqb (tagName el) "IFRAME";
  predictType := guess_type;
  isDailymotionSource := url_has "dailymotion.com";
  isFacebookSource := url_has "facebook.com";
  isTwitchSource := url_has "twitch.tv";
  isVimeoSource := url_has "vimeo.com";
  isYouTubeSource := url_has "youtube.com";
  isHlsSource := url_has ".m3u8";
  isDashSource := url_has ".mpd";
  ext_new k _ _ :=
    match k with
    | VimeoMedia | HlsMedia | DashMedia => Some false
    | _ => Some true
    end;
  ext_canPlayType a mime :=
    Some (VBool match get_prop (a_media a) "type" with
                | Ok (VStr t) => strict_eq_str mime t
                | _ => false
                end);
  ext_has _ m :=
    existsb (String.eqb m) ["canPlayType"; "load"; "play"; "pause"; "destroy"];
  ext_returns _ _ := true
|}.

Definition empty_world : World :=
  {| arrays := []; promises := []; jobs := []; trace := [] |}.

Definition iframe (src : string) : Element :=
  {| tagName := "IFRAME"; el_src := src; el_type := None; el_sources := [] |}.

Definition video (sources : list SourceTag) : Element :=
  {| tagName := "VIDEO"; el_src := ""; el_type := None; el_sources := sources |}.

(** [new Media(element)] on a fresh page: the state on success. *)
Definition start (el : Element) : option Media.State :=
  match Media.constructor host el empty_world with
  | (Ok m, w) => Some {| Media.this := m; Media.world := w |}
  | (Throw _, _) => None
  end.

(** A call whose exception, if any, the caller catches. *)
Definition after {A} (m : M Media.State A) (s : Media.State) : Media.State :=
  snd (m s).

(** The caller evaluates an array literal. *)
Definition literal (xs : list (option value)) (s : Media.State) : nat * Media.State :=
  (length (arrays (Media.world s)),
   {| Media.this := Media.this s;
      Media.world := snd (array_literal xs (Media.world s)) |}).

(** The state right after a successful [new Media(el)] on a fresh page
    whose list holds the descriptors [ds]. *)
Definition fresh (el : Element) (ds : list (option value)) : Media.State :=
  {| Media.this := {| Media.element := el; Media.mediaFiles := 0;
                      Media.promisePlay := None; Media.media := SUndefined |};
     Media.world := {| arrays := [ds]; promises := []; jobs := []; trace := [] |} |}.

Definition descriptor (type src : string) : value :=
  VObj [("type", VStr type); ("src", VStr src)].

(** [media.src = xs], the caller catching what the setter throws. *)
Definition assign_array (xs : list (option value)) (s : Media.State) : Media.State :=
  let (r, s') := literal xs s in after (Media.set_src host (VArr r)) s'.

Definition youtube_page : Element := iframe "https://www.youtube.com/embed/abc".
Definition vimeo_page : Element := iframe "https://player.vimeo.com/video/1".
Definition unknown_page : Element := iframe "https://example.com/player".
Definition video_page : Element :=
  video [{| st_src := "movie.mp4"; st_type := Some "video/mp4" |}].

End Demo.

(** ** Scripts

    What a caller does with a [Media] object, one step at a time: a method
    call whose exception, if any, the caller catches; one microtask; or the
    host fulfilling a readiness promise. *)

Inductive Call : Type :=
| CLoad
| CPlay
| CPause
| CSetSrc (v : value)
| CGetSrc
| CDestroy
| CCanPlayType (mime : value)
| CMicrotask
| CReady (p : nat).

Definition step (I : Imports) (c : Call) (s : Media.State) : Media.State :=
  match c with
  | CLoad => snd (Media.load I s)
  | CPlay => snd (Media.play s)
  | CPause => snd (Media.pause I s)
  | CSetSrc v => snd (Media.set_src I v s)
  | CGetSrc => snd (Media.get_src s)
  | CDestroy => snd (Media.destroy I s)
  | CCanPlayType mime => snd (Media.canPlayType I mime s)
  | CMicrotask => Media.run_job I s
  | CReady p => Media.ready p s
  end.

Definition run (I : Imports) (cs : list Call) (s : Media.State) : Media.State :=
  fold_left (fun s c => step I c s) cs s.

Definition is_load (c : Call) : bool :=
  match c with CLoad => true | _ => false end.

Definition is_play (c : Call) : bool :=
  match c with CPlay => true | _ => false end.

(** [media.src = a] for an array [a]: the one step that rebinds
    [this.mediaFiles]. *)
Definition assigns_array (c : Call) : bool :=
  match c with CSetSrc (VArr _) => true | _ => false end.

(** The class the URL tests name for a descriptor on an element. *)
Definition chosen (I : Imports) (el : Element) (url : value) : option AdapterClass :=
  if isIframe I el then spec_iframe_adapter I url
  else Some (spec_native_adapter I url).

(** What [load()] leaves alone: the element, the list and its reference,
    [promisePlay], every array, and the record of method calls. *)
Definition untouched_by_load (s s' : Media.State) : Prop :=
  Media.element (Media.this s') = Media.element (Media.this s) /\
  Media.mediaFiles (Media.this s') = Media.mediaFiles (Media.this s) /\
  Media.promisePlay (Media.this s') = Media.promisePlay (Media.this s) /\
  arrays (Media.world s') = arrays (Media.world s) /\
  calls (trace (Media.world s')) = calls (trace (Media.world s)).



(** A host like [Demo.host], except that its outside adapters also have a
    [src] method and that its DASH adapter cannot be built. *)
Definition host_with_src : Imports := {|
  isIframe := isIframe Demo.host;
  predictType := predictType Demo.host;
  isDailymotionSource := isDailymotionSource Demo.host;
  isFacebookSource := isFacebookSource Demo.host;
  isTwitchSource := isTwitchSource Demo.host;
  isVimeoSource := isVimeoSource Demo.host;
  isYouTubeSource := isYouTubeSource Demo.host;
  isHlsSource := isHlsSource Demo.host;
  isDashSource := isDashSource Demo.host;
  ext_new k el d :=
    match k with
    | DashMedia => None
    | _ => ext_new Demo.host k el d
    end;
  ext_canPlayType := ext_canPlayType Demo.host;
  ext_has _ m :=
    existsb (String.eqb m)
      ["canPlayType"; "load"; "play"; "pause"; "destroy"; "src"];
  ext_returns := ext_returns Demo.host
|}.

(** ** The loop of [load()] as the specification words it

    A descriptor is examined: a backend is selected for it, and the backend
    then selected is asked, through [canPlayType], whether it plays the type
    of the descriptor.  The examination ends in that answer, or in the
    exception thrown on the way. *)

Inductive spec_examined (I : Imports) (d : value) (s : Media.State)
  : result bool -> Media.State -> Prop :=
| examined_answer sel ty b s' :
    Media.load_select I d s = (Ok tt, sel) ->
    get_prop d "type" = Ok ty ->
    Media.canPlayType I ty sel = (Ok b, s') ->
    spec_examined I d s (Ok b) s'
| examined_select_throws e s' :
    Media.load_select I d s = (Throw e, s') ->
    spec_examined I d s (Throw e) s'
| examined_type_throws sel e :
    Media.load_select I d s = (Ok tt, sel) ->
    get_prop d "type" = Throw e ->
    spec_examined I d s (Throw e) sel
| examined_canPlayType_throws sel ty e s' :
    Media.load_select I d s = (Ok tt, sel) ->
    get_prop d "type" = Ok ty ->
    Media.canPlayType I ty sel = (Throw e, s') ->
    spec_examined I d s (Throw e) s'.

(** Every descriptor of the list was examined in turn, from the state the
    one before it left, and reported not playable. *)
Inductive spec_all_rejected (I : Imports)
  : list (option value) -> Media.State -> Media.State -> Prop :=
| rejected_nil s : spec_all_rejected I [] s s
| rejected_hole xs s s' :
    spec_all_rejected I xs s s' ->
    spec_all_rejected I (None :: xs) s s'
| rejected_cons d xs s s1 s' :
    spec_examined I d s (Ok false) s1 ->
    spec_all_rejected I xs s1 s' ->
    spec_all_rejected I (Some d :: xs) s s'.

(** A host like [Demo.host], except that its Twitch adapter cannot be
    built. *)
Definition host_twitch_down : Imports := {|
  isIframe := isIframe Demo.host;
  predictType := predictType Demo.host;
  isDailymotionSource := isDailymotionSource Demo.host;
  isFacebookSource := isFacebookSource Demo.host;
  isTwitchSource := isTwitchSource Demo.host;
  isVimeoSource := isVimeoSource Demo.host;
  isYouTubeSource := isYouTubeSource Demo.host;
  isHlsSource := isHlsSource Demo.host;
  isDashSource := isDashSource Demo.host;
  ext_new k el d :=
    match k with
    | TwitchMedia => None
    | _ => ext_new Demo.host k el d
    end;
  ext_canPlayType := ext_canPlayType Demo.host;
  ext_has := ext_has Demo.host;
  ext_returns := ext_returns Demo.host
|}.

(** ** Properties *)

Ltac unfold_monad :=
  unfold bind, ret, throw, gets, modify, try_catch, lift_result, Media.liftW,
    Media.set_media, Media.set_mediaFiles, Media.set_promisePlay,
    Media.with_media in *.

(** *** The [some] loop *)

Section SomeLoop.
Context {S : Type} (cb : value -> M S bool).

Lemma some_app_false xs ys (s s1 : S) :
  Media.some cb xs s = (Ok false, s1) ->
  Media.some cb (xs ++ ys) s = Media.some cb ys s1.
Proof.
  revert s. induction xs as [|[x|] xs IH]; intros s H; simpl in *.
  - unfold ret in H. now inversion H.
  - unfold bind in *. destruct (cb x s) as [[[|]|e] s'].
    + discriminate H.
    + now apply IH.
    + discriminate H.
  - now apply IH.
Qed.

Lemma some_cons_true x ys (s s1 : S) :
  cb x s = (Ok true, s1) ->
  Media.some cb (Some x :: ys) s = (Ok true, s1).
Proof. intros H. simpl. unfold bind. now rewrite H. Qed.

(** A property of the state that every call of the callback establishes
    holds after a loop that called it at least once. *)
Lemma some_establishes (P : S -> Prop) :
  (forall x s b s', cb x s = (Ok b, s') -> P s') ->
  forall xs s b s',
    P s \/ (exists x, In (Some x) xs) ->
    Media.some cb xs s = (Ok b, s') -> P s'.
Proof.
  intros Hcb. induction xs as [|[x|] xs IH]; intros s b s' Hp H; simpl in H.
  - unfold ret in H. inversion H; subst.
    destruct Hp as [Hp|[y []]]. exact Hp.
  - unfold bind in H. destruct (cb x s) as [[[|]|e] s1] eqn:E.
    + inversion H; subst. eapply Hcb; eauto.
    + eapply IH; [left; eapply Hcb; eauto | exact H].
    + discriminate H.
  - eapply IH; [|exact H].
    destruct Hp as [Hp|[y [Hy|Hy]]]; [now left | discriminate Hy | right; eauto].
Qed.

(** An exception leaves the loop only out of a call of the callback. *)
Lemma some_throws (Q : exn -> Prop) :
  (forall x s e s', cb x s = (Throw e, s') -> Q e) ->
  forall xs s e s', Media.some cb xs s = (Throw e, s') -> Q e.
Proof.
  intros Hcb. induction xs as [|[x|] xs IH]; intros s e s' H; simpl in H.
  - discriminate H.
  - unfold bind in H. destruct (cb x s) as [[[|]|e1] s1] eqn:E.
    + discriminate H.
    + eapply IH; eauto.
    + inversion H; subst. eapply Hcb; eauto.
  - eapply IH; eauto.
Qed.
End SomeLoop.

(** *** Promise bookkeeping touches neither the trace nor the arrays *)

Lemma then_frame p cb w :
  trace (snd (then_ p cb w)) = trace w /\ arrays (snd (then_ p cb w)) = arrays w.
Proof.
  unfold then_, new_promise, enqueue. unfold_monad.
  destruct (promises w !! p) as [[rs| |e]|]; simpl; auto.
Qed.

Lemma load_finish_frame s :
  Media.this (snd (Media.load_finish s)) = Media.this s /\
  trace (Media.world (snd (Media.load_finish s))) = trace (Media.world s) /\
  arrays (Media.world (snd (Media.load_finish s))) = arrays (Media.world s).
Proof.
  unfold Media.load_finish. unfold_monad.
  destruct (Media.media (Media.this s)) as [| |a]; simpl; auto.
  pose proof (then_frame (a_promise a) CbLoad (Media.world s)) as [Ht Ha].
  destruct (then_ (a_promise a) CbLoad (Media.world s)) as [[q|e] w]; simpl in *; auto.
Qed.

Section LoadProps.
Variable I : Imports.

Lemma load_of_empty (s : Media.State) :
  Media.files s = [] ->
  Media.load I s = (Throw (TypeError "Media not set"), s).
Proof.
  intros H. unfold Media.load. unfold_monad. now rewrite H.
Qed.

(** C10. When [mediaFiles] is empty, [load()] throws
    [TypeError('Media not set')] and the whole state -- [mediaFiles],
    [promisePlay], the selected backend, and the trace of adapter calls,
    so no backend was selected -- is the state it started from. *)
Theorem load_empty_media_not_set (s : Media.State) :
  length (Media.files s) = 0 ->
  Media.load I s = (Throw (TypeError "Media not set"), s).
Proof.
  intros H. apply load_of_empty. now destruct (Media.files s).
Qed.

Lemma load_nonempty (s : Media.State) :
  Media.files s <> [] ->
  Media.load I s =
    match Media.some (Media.load_callback I) (Media.files s) s with
    | (Ok _, s') => Media.load_finish s'
    | (Throw e, s') => (Throw e, s')
    end.
Proof.
  intros H. unfold Media.load. unfold_monad.
  destruct (Media.files s) as [|x xs]; [congruence|]. reflexivity.
Qed.


End LoadProps.

(** *** Dispatch *)

Section Dispatch.
Variable I : Imports.

Lemma new_adapter_class k el d w a w' :
  Media.new_adapter I k el d w = (Ok a, w') ->
  a_class a = k /\ a_element a = el /\ a_media a = d.
Proof.
  unfold Media.new_adapter, YouTubeMedia.constructor, log, new_promise.
  unfold_monad. intros H.
  destruct k; simpl in H;
    try (destruct (ext_new I _ el d) as [r|]; simpl in H);
    inversion H; subst; simpl; auto.
Qed.

(** The [if] chain of [_loadIframeSource] is the ordered list of tests. *)
Lemma _loadIframeSource_spec el d url w :
  get_prop d "src" = Ok url ->
  Media._loadIframeSource I el d w =
    match spec_iframe_adapter I url with
    | Some k => (a <- Media.new_adapter I k el d ;; ret (SAdapter a)) w
    | None => (Ok SNull, w)
    end.
Proof.
  intros Hsrc. unfold Media._loadIframeSource, spec_iframe_adapter, first_match.
  unfold bind at 1. unfold lift_result. rewrite Hsrc. simpl.
  destruct (isDailymotionSource I url); [reflexivity|].
  destruct (isFacebookSource I url); [reflexivity|].
  destruct (isTwitchSource I url); [reflexivity|].
  destruct (isVimeoSource I url); [reflexivity|].
  destruct (isYouTubeSource I url); reflexivity.
Qed.

Lemma _loadNativeSource_spec el d url w :
  get_prop d "src" = Ok url ->
  Media._loadNativeSource I el d w =
    (a <- Media.new_adapter I (spec_native_adapter I url) el d ;; ret (SAdapter a)) w.
Proof.
  intros Hsrc. unfold Media._loadNativeSource, spec_native_adapter, first_match.
  unfold bind at 1. unfold lift_result. rewrite Hsrc. simpl.
  destruct (isHlsSource I url); [reflexivity|].
  destruct (isDashSource I url); reflexivity.
Qed.


Lemma new_native_ok el d r w :
  ext_new I NativeMedia el d = Some r ->
  exists a w', Media.new_adapter I NativeMedia el d w = (Ok a, w') /\
               a_class a = NativeMedia.
Proof.
  intros H. unfold Media.new_adapter, log, new_promise. unfold_monad.
  rewrite H. simpl. eauto.
Qed.

Lemma _loadNativeSource_ok el d w m w' :
  Media._loadNativeSource I el d w = (Ok m, w') ->
  exists a, m = SAdapter a /\ In (a_class a) [HlsMedia; DashMedia; NativeMedia].
Proof.
  unfold Media._loadNativeSource. unfold bind at 1. unfold lift_result.
  destruct (get_prop d "src") as [url|e]; [|discriminate].
  destruct (isHlsSource I url); [|destruct (isDashSource I url)];
    unfold bind, ret;
    match goal with
    | |- context [Media.new_adapter I ?k el d w] =>
        destruct (Media.new_adapter I k el d w) as [[a|e] w1] eqn:E
    end; intros H; inversion H; subst;
    apply new_adapter_class in E as (Hc & _);
    exists a; rewrite Hc; simpl; auto.
Qed.

(** C3. On an element that is not an iframe, the [try] statement of the
    [load] loop picks [HlsMedia] for an HLS URL, else [DashMedia] for a
    DASH URL, else [NativeMedia]: the adapter that constructor returns
    becomes the selected backend and is of that class.  Moreover, as long
    as the [NativeMedia] constructor itself returns, the statement always
    completes with an adapter of one of the three classes installed,
    never with [null]. *)
Theorem native_adapter_precedence (s : Media.State) (d : value) :
  isIframe I (Media.element (Media.this s)) = false ->
  (forall url a w',
      get_prop d "src" = Ok url ->
      Media.new_adapter I (spec_native_adapter I url)
        (Media.element (Media.this s)) d (Media.world s) = (Ok a, w') ->
      Media.load_select I d s =
        (Ok tt, Media.with_media (SAdapter a)
                  {| Media.this := Media.this s; Media.world := w' |}) /\
      a_class a = spec_native_adapter I url) /\
  (is_Some (ext_new I NativeMedia (Media.element (Media.this s)) d) ->
   exists a s',
     Media.load_select I d s = (Ok tt, s') /\
     Media.media (Media.this s') = SAdapter a /\
     In (a_class a) [HlsMedia; DashMedia; NativeMedia]).
Proof.
  intros Hif. split.
  - intros url a w' Hsrc Hnew. split; [|eapply new_adapter_class; eauto].
    unfold Media.load_select.
    unfold bind at 1. unfold gets. rewrite Hif.
    unfold try_catch, bind at 1, Media.liftW.
    rewrite (_loadNativeSource_spec _ _ _ _ Hsrc).
    unfold bind at 1. rewrite Hnew. reflexivity.
  - intros [r Hr].
    unfold Media.load_select.
    unfold bind at 1. unfold gets. rewrite Hif.
    unfold try_catch, bind at 1, Media.liftW.
    destruct (Media._loadNativeSource I (Media.element (Media.this s)) d
                (Media.world s)) as [[m|e] w1] eqn:E.
    + apply _loadNativeSource_ok in E as (a & -> & Hin).
      exists a. eexists. split; [reflexivity|]. simpl. auto.
    + destruct (new_native_ok _ _ _ w1 Hr) as (a & w2 & Hnew & Hc).
      exists a. eexists. unfold bind, Media.liftW. simpl. rewrite Hnew.
      split; [reflexivity|]. simpl. rewrite Hc. simpl. auto.
Qed.

End Dispatch.

(** *** Exceptions of the [load] loop *)

Lemma from_callback_not_guard e : from_callback e -> e <> no_valid_type.
Proof.
  intros H ->. simpl in H. destruct H as [H|[H|H]]; discriminate H.
Qed.

Lemma get_prop_throws v n e : get_prop v n = Throw e -> from_callback e.
Proof. destruct v; simpl; intros H; inversion H; subst; simpl; auto. Qed.

Lemma get_prop_total v n m x :
  get_prop v n = Ok x -> exists y, get_prop v m = Ok y.
Proof. destruct v; simpl; intros H; try discriminate H; eauto. Qed.

Section LoadExceptions.
Variable I : Imports.

Lemma new_adapter_throws k el d w e w' :
  Media.new_adapter I k el d w = (Throw e, w') -> from_callback e.
Proof.
  unfold Media.new_adapter, YouTubeMedia.constructor, log, new_promise.
  unfold_monad. intros H.
  destruct k; simpl in H;
    try (destruct (ext_new I _ el d) as [r|]; simpl in H);
    inversion H; subst; simpl; auto.
Qed.

Lemma load_select_throws d s e s' :
  Media.load_select I d s = (Throw e, s') -> from_callback e.
Proof.
  unfold Media.load_select. unfold_monad. intros H.
  set (m := if isIframe I (Media.element (Media.this s))
            then Media._loadIframeSource I (Media.element (Media.this s)) d
            else Media._loadNativeSource I (Media.element (Media.this s)) d) in H.
  destruct (m (Media.world s)) as [[sl|e0] w0]; [discriminate H|].
  simpl in H.
  destruct (Media.new_adapter I NativeMedia (Media.element (Media.this s)) d w0)
    as [[a|e1] w1] eqn:En; [discriminate H|].
  inversion H; subst. eapply new_adapter_throws; eauto.
Qed.
Lemma adapter_canPlayType_throws a mime w e w' :
  Media.adapter_canPlayType I a mime w = (Throw e, w') -> from_callback e.
Proof.
  unfold Media.adapter_canPlayType, YouTubeMedia.canPlayType, log.
  unfold_monad. intros H.
  destruct (Media.adapter_has I a "canPlayType"); simpl in H.
  - destruct (a_class a); simpl in H;
      try solve [destruct (ext_canPlayType I a mime); inversion H; subst; simpl; auto].
    destruct (strict_eq_str mime "application/x-youtube"); simpl in H;
      [|discriminate H].
    destruct (get_prop (a_media a) "type") as [ty|e0] eqn:E; simpl in H;
      inversion H; subst. eapply get_prop_throws; eauto.
  - inversion H; subst; simpl; auto.
Qed.

Lemma canPlayType_this mime s :
  Media.this (snd (Media.canPlayType I mime s)) = Media.this s.
Proof.
  unfold Media.canPlayType. unfold_monad.
  destruct (Media.media (Media.this s)) as [| |a]; simpl; auto.
  destruct (Media.adapter_canPlayType I a mime (Media.world s)) as [[v|e] w];
    reflexivity.
Qed.

Lemma canPlayType_ok mime s b s' :
  Media.canPlayType I mime s = (Ok b, s') ->
  exists a, Media.media (Media.this s') = SAdapter a.
Proof.
  intros H. pose proof (canPlayType_this mime s) as Ht.
  rewrite H in Ht. simpl in Ht. rewrite Ht.
  unfold Media.canPlayType in H. unfold_monad.
  destruct (Media.media (Media.this s)) as [| |a]; try discriminate H; eauto.
Qed.

Lemma canPlayType_throws mime s e s' :
  Media.canPlayType I mime s = (Throw e, s') -> from_callback e.
Proof.
  unfold Media.canPlayType. unfold_monad. intros H.
  destruct (Media.media (Media.this s)) as [| |a];
    try (inversion H; subst; simpl; now auto).
  destruct (Media.adapter_canPlayType I a mime (Media.world s))
    as [[v|e0] w] eqn:E; [discriminate H|].
  inversion H; subst. eapply adapter_canPlayType_throws; eauto.
Qed.

Lemma load_callback_ok d s b s' :
  Media.load_callback I d s = (Ok b, s') ->
  exists a, Media.media (Media.this s') = SAdapter a.
Proof.
  unfold Media.load_callback. unfold bind, lift_result. intros H.
  destruct (Media.load_select I d s) as [[[]|e] s1]; [|discriminate H].
  destruct (get_prop d "type") as [ty|e]; [|discriminate H].
  eapply canPlayType_ok; eauto.
Qed.

Lemma load_callback_throws d s e s' :
  Media.load_callback I d s = (Throw e, s') -> from_callback e.
Proof.
  unfold Media.load_callback. unfold bind, lift_result. intros H.
  destruct (Media.load_select I d s) as [[[]|e0] s1] eqn:Es.
  - destruct (get_prop d "type") as [ty|e1] eqn:Eg.
    + eapply canPlayType_throws; eauto.
    + inversion H; subst. eapply get_prop_throws; eauto.
  - inversion H; subst. eapply load_select_throws; eauto.
Qed.

Lemma some_absent {S} (cb : value -> M S bool) xs s :
  (forall d, ~ In (Some d) xs) -> Media.some cb xs s = (Ok false, s).
Proof.
  induction xs as [|[x|] xs IH]; intros H; simpl.
  - reflexivity.
  - exfalso. apply (H x). now left.
  - apply IH. intros d Hd. apply (H d). now right.
Qed.

Lemma present_dec (xs : list (option value)) :
  (exists d, In (Some d) xs) \/ (forall d, ~ In (Some d) xs).
Proof.
  induction xs as [|[x|] xs IH].
  - right. intros d [].
  - left. exists x. now left.
  - destruct IH as [[d Hd]|Hn].
    + left. exists d. now right.
    + right. intros d [Hd|Hd]; [discriminate Hd|]. exact (Hn d Hd).
Qed.

Lemma load_finish_result s :
  fst (Media.load_finish s) = Throw no_valid_type <->
  Media.media (Media.this s) = SNull.
Proof.
  unfold Media.load_finish, then_, new_promise, enqueue. unfold_monad.
  destruct (Media.media (Media.this s)) as [| |a]; simpl.
  - split; discriminate.
  - split; reflexivity.
  - split; [|discriminate].
    destruct (promises (Media.world s) !! a_promise a) as [[rs| |e]|];
      simpl; discriminate.
Qed.

(** C9, as amended.  On an iframe element whose first descriptor has a
    URL that none of the five tests recognises, the lookup leaves
    [this.media] at [null] and [load()] throws the [TypeError] of reading
    [canPlayType] off [null].  The [TypeError] guarded by the
    [this.media === null] test is thrown exactly when [mediaFiles] has a
    non-zero length but no element at any index and [this.media] was
    already [null]; in particular never when the loop examines a
    descriptor. *)
Theorem load_null_backend (s : Media.State) :
  (forall d rest url,
      Media.files s = Some d :: rest ->
      isIframe I (Media.element (Media.this s)) = true ->
      get_prop d "src" = Ok url ->
      spec_iframe_adapter I url = None ->
      Media.load I s =
        (Throw (TypeError "Cannot read properties of null"),
         Media.with_media SNull s)) /\
  (fst (Media.load I s) = Throw no_valid_type <->
   Media.files s <> [] /\
   (forall d, ~ In (Some d) (Media.files s)) /\
   Media.media (Media.this s) = SNull).
Proof.
  split.
  - intros d rest url Hf Hif Hsrc Hnone.
    rewrite load_nonempty by (rewrite Hf; discriminate).
    rewrite Hf. simpl. unfold bind at 1.
    unfold Media.load_callback. unfold bind at 1.
    assert (Hsel : Media.load_select I d s = (Ok tt, Media.with_media SNull s)).
    { unfold Media.load_select.
      unfold bind at 1. unfold gets. rewrite Hif.
      unfold try_catch, bind at 1, Media.liftW.
      rewrite (_loadIframeSource_spec I _ _ _ _ Hsrc), Hnone.
      destruct s as [th w]. reflexivity. }
    rewrite Hsel.
    destruct (get_prop_total d "src" "type" url Hsrc) as [ty Hty].
    unfold bind, lift_result. rewrite Hty. reflexivity.
  - destruct (list_eq_nil_dec (Media.files s)) as [Hnil|Hne].
    { rewrite load_of_empty by exact Hnil. simpl.
      split; [discriminate|]. intros (Hne & _). contradiction. }
    rewrite load_nonempty by exact Hne.
    destruct (present_dec (Media.files s)) as [Hp|Hn].
    + split; [|intros (_ & Hn & _); destruct Hp as [d Hd]; destruct (Hn d Hd)].
      destruct (Media.some (Media.load_callback I) (Media.files s) s)
        as [[b|e] s1] eqn:E.
      * intros Hg. apply load_finish_result in Hg.
        assert (exists a, Media.media (Media.this s1) = SAdapter a) as [a Ha].
        { eapply (some_establishes (Media.load_callback I)
                    (fun st => exists a, Media.media (Media.this st) = SAdapter a));
            [| right; exact Hp | exact E].
          intros x st b' st' Hx. eapply load_callback_ok; eauto. }
        congruence.
      * simpl. intros Hg. exfalso.
        assert (from_callback e) as Hfc.
        { eapply (some_throws (Media.load_callback I) from_callback);
            [|exact E].
          intros x st e' st' Hx. eapply load_callback_throws; eauto. }
        apply from_callback_not_guard in Hfc. congruence.
    + rewrite (some_absent _ _ _ Hn). rewrite load_finish_result.
      split; [intros Hm; auto | intros (_ & _ & Hm); exact Hm].
Qed.

End LoadExceptions.

(** *** Arrays *)

Lemma array_get_push r v w :
  array_get r (snd (array_push r v w)) =
    if decide (r < length (arrays w)) then array_get r w ++ [Some v] else [].
Proof.
  unfold array_push, array_get, modify, set_arrays. simpl.
  destruct (arrays w !! r) as [xs|] eqn:E.
  - pose proof (lookup_lt_Some _ _ _ E) as Hlt.
    rewrite list_lookup_insert_eq by exact Hlt.
    destruct (decide (r < length (arrays w))); [reflexivity | contradiction].
  - rewrite E. apply lookup_ge_None in E.
    destruct (decide (r < length (arrays w))); [lia | reflexivity].
Qed.

Lemma array_get_push_ne r r' v w :
  r <> r' -> array_get r' (snd (array_push r v w)) = array_get r' w.
Proof.
  intros Hne. unfold array_push, array_get, modify, set_arrays. simpl.
  destruct (arrays w !! r) as [xs|]; [|reflexivity].
  now rewrite list_lookup_insert_ne.
Qed.

Lemma all_descriptors_app xs ys :
  all_descriptors (xs ++ ys) = all_descriptors xs && all_descriptors ys.
Proof. unfold all_descriptors. apply forallb_app. Qed.

Lemma all_descriptors_push r v w :
  all_descriptors (array_get r w) = true ->
  is_descriptor v = true ->
  all_descriptors (array_get r (snd (array_push r v w))) = true.
Proof.
  intros Hall Hv. rewrite array_get_push.
  destruct (decide (r < length (arrays w))); [|reflexivity].
  rewrite all_descriptors_app, Hall. simpl. now rewrite Hv.
Qed.

Section Sources.
Variable I : Imports.

Lemma call_method_arrays t m args w :
  arrays (snd (Media.call_method I t m args w)) = arrays w.
Proof.
  unfold Media.call_method, YouTubeMedia.load, log. unfold_monad.
  destruct t as [a|el].
  - destruct (Media.adapter_has I a m); [|reflexivity].
    destruct (a_class a); simpl;
      try (destruct (ext_returns I _ m); reflexivity).
    destruct (String.eqb m "load"); reflexivity.
  - destruct (element_has el m); reflexivity.
Qed.

Lemma notify_src_frame s :
  Media.this (snd (Media.notify_src I s)) = Media.this s /\
  arrays (Media.world (snd (Media.notify_src I s))) = arrays (Media.world s).
Proof.
  unfold Media.notify_src. unfold_monad.
  destruct (Media.media (Media.this s)) as [| |a]; [now split | now split |].
  destruct (Media.adapter_has I a "src"); [|now split].
  pose proof (call_method_arrays (TAdapter a) "src"
                [VArr (Media.mediaFiles (Media.this s))] (Media.world s)) as H.
  destruct (Media.call_method I (TAdapter a) "src"
              [VArr (Media.mediaFiles (Media.this s))] (Media.world s))
    as [[u|e] w]; simpl in *; auto.
Qed.

Lemma notify_src_files s : Media.files (snd (Media.notify_src I s)) = Media.files s.
Proof.
  destruct (notify_src_frame s) as [Ht Ha].
  unfold Media.files, array_get. now rewrite Ht, Ha.
Qed.

Lemma set_src_files v s :
  Media.files (snd (Media.set_src I v s)) = Media.files (snd (Media.store_src v s)).
Proof.
  unfold Media.set_src, bind.
  destruct (Media.store_src v s) as [[u|e] s1]; [|reflexivity].
  apply notify_src_files.
Qed.

Lemma set_src_this v s :
  Media.this (snd (Media.set_src I v s)) = Media.this (snd (Media.store_src v s)).
Proof.
  unfold Media.set_src, bind.
  destruct (Media.store_src v s) as [[u|e] s1]; [|reflexivity].
  apply notify_src_frame.
Qed.

Lemma store_src_array r s :
  Media.store_src (VArr r) s =
    (Ok tt, {| Media.this := {| Media.element := Media.element (Media.this s);
                                Media.mediaFiles := r;
                                Media.promisePlay := Media.promisePlay (Media.this s);
                                Media.media := Media.media (Media.this s) |};
               Media.world := Media.world s |}).
Proof. reflexivity. Qed.

Lemma store_src_object fs s :
  Media.store_src (VObj fs) s =
    (Ok tt, {| Media.this := Media.this s;
               Media.world := snd (array_push (Media.mediaFiles (Media.this s))
                                     (VObj fs) (Media.world s)) |}).
Proof. reflexivity. Qed.

Lemma store_src_string x s :
  Media.store_src (VStr x) s =
    (Throw (ReferenceError "predictType is not defined"), s).
Proof. reflexivity. Qed.

Lemma constructor_iframe el w :
  isIframe I el = true ->
  exists m w',
    Media.constructor I el w = (Ok m, w') /\
    Media.files {| Media.this := m; Media.world := w' |} =
      [Some (VObj [("type", predictType I (VStr (el_src el)));
                   ("src", VStr (el_src el))])].
Proof.
  intros Hif. unfold Media.constructor, Media._getMediaFiles, new_array.
  unfold bind at 1 2 3. rewrite Hif.
  set (d := VObj _).
  set (w1 := set_arrays (fun h => h ++ [[]]) w).
  pose proof (array_get_push (length (arrays w)) d w1) as Hp.
  unfold array_push, modify in *. simpl in Hp.
  eexists. eexists. split; [reflexivity|].
  unfold Media.files. simpl. rewrite Hp.
  rewrite length_app. simpl.
  destruct (decide (length (arrays w) < length (arrays w) + 1)); [|lia].
  unfold array_get, w1. simpl.
  now rewrite list_lookup_middle.
Qed.

(** C7, as amended.  The list the constructor gathers from an iframe
    element is the single descriptor [{type, src}] of the iframe's own
    URL.  The setter stores an object or an array as it is given, so the
    list stays made of [{src, type}] descriptors when what is given is
    made of them. *)
Theorem mediaFiles_descriptors :
  (forall el w,
      isIframe I el = true ->
      exists m w',
        Media.constructor I el w = (Ok m, w') /\
        Media.files {| Media.this := m; Media.world := w' |} =
          [Some (VObj [("type", predictType I (VStr (el_src el)));
                       ("src", VStr (el_src el))])] /\
        all_descriptors (Media.files {| Media.this := m; Media.world := w' |}) = true) /\
  (forall s v,
      all_descriptors (Media.files s) = true ->
      storable (Media.world s) v = true ->
      all_descriptors (Media.files (snd (Media.set_src I v s))) = true).
Proof.
  split.
  - intros el w Hif.
    destruct (constructor_iframe el w Hif) as (m & w' & Hc & Hf).
    exists m, w'. repeat split; auto. now rewrite Hf.
  - intros s v Hall Hv. rewrite set_src_files.
    destruct v; try discriminate Hv.
    + rewrite store_src_object. unfold Media.files. simpl.
      now apply all_descriptors_push.
    + rewrite store_src_array. exact Hv.
Qed.

(** The array half of the setter: the list read back is the very array
    that was assigned, with its elements untouched, whether or not the
    backend's [src] method throws. *)
Lemma set_src_array_get r s :
  let s' := snd (Media.set_src I (VArr r) s) in
  Media.get_src s' = (Ok (VArr r), s') /\
  Media.files s' = array_get r (Media.world s).
Proof.
  simpl. split.
  - unfold Media.get_src. unfold_monad.
    now rewrite set_src_this, store_src_array.
  - now rewrite set_src_files, store_src_array.
Qed.

End Sources.

(** *** Where the code departs from the uniform surface *)

Section Surface.
Variable I : Imports.

(** On any element that is not an iframe the constructor stops at the
    read of [nodeSource], before it looks at the [<source>] children. *)
Lemma constructor_not_iframe el w :
  isIframe I el = false ->
  Media.constructor I el w =
    (Throw (ReferenceError "nodeSource is not defined"),
     set_arrays (fun h => h ++ [[]]) w).
Proof.
  intros Hif. unfold Media.constructor, Media._getMediaFiles, new_array.
  unfold bind at 1 2 3. now rewrite Hif.
Qed.

(** [YouTubeMedia] defines no [destroy]. *)
Lemma destroy_youtube s a :
  Media.media (Media.this s) = SAdapter a ->
  a_class a = YouTubeMedia ->
  Media.destroy I s = (Throw (TypeError "destroy is not a function"), s).
Proof.
  intros Hm Hc. unfold Media.destroy, Media.call_method, Media.adapter_has.
  unfold_monad. rewrite Hm, Hc. simpl. now destruct s.
Qed.

(** A string never reaches the list. *)
Lemma set_src_string x s :
  Media.set_src I (VStr x) s =
    (Throw (ReferenceError "predictType is not defined"), s).
Proof. reflexivity. Qed.

(** While the readiness promise of the backend is pending, the closure
    of [play] only registers the call of [play] on that promise: nothing
    is called yet. *)
Lemma play_waits_for_readiness this a rs w :
  Media.media this = SAdapter a ->
  promises w !! a_promise a = Some (Pending rs) ->
  exists w',
    Media.run_callback I CbPlayOuter this w = (Ok tt, w') /\
    trace w' = trace w /\ jobs w' = jobs w /\
    promises w' !! a_promise a =
      Some (Pending (rs ++ [(CbPlayInner, length (promises w))])).
Proof.
  intros Hm Hp. unfold Media.run_callback, then_, new_promise. unfold_monad.
  rewrite Hm, Hp. simpl. eexists. split; [reflexivity|]. simpl.
  repeat split.
  pose proof (lookup_lt_Some _ _ _ Hp) as Hlt.
  rewrite list_lookup_insert_eq; [reflexivity|].
  rewrite length_app. simpl. lia.
Qed.

End Surface.

(** *** Runs on the sample host *)

Import Demo.

Lemma start_youtube :
  start youtube_page =
    Some (fresh youtube_page
            [Some (descriptor "application/x-youtube" "https://www.youtube.com/embed/abc")]).
Proof. reflexivity. Qed.

Lemma start_vimeo :
  start vimeo_page =
    Some (fresh vimeo_page
            [Some (descriptor "video/x-vimeo" "https://player.vimeo.com/video/1")]).
Proof. reflexivity. Qed.

Lemma start_unknown :
  start unknown_page =
    Some (fresh unknown_page
            [Some (descriptor "video/mp4" "https://example.com/player")]).
Proof. reflexivity. Qed.

(** C4.  [new Media(video)] for a [<video>] with one [<source>] child
    throws [ReferenceError: nodeSource is not defined]; no descriptor is
    gathered and no [Media] object results. *)
Theorem constructor_throws_on_video :
  isIframe host video_page = false /\
  Media.constructor host video_page empty_world =
    (Throw (ReferenceError "nodeSource is not defined"),
     {| arrays := [[]]; promises := []; jobs := []; trace := [] |}) /\
  start video_page = None.
Proof. repeat split. Qed.

(** C5.  On a YouTube iframe [load()] selects the [YouTubeMedia] adapter
    and returns, and then [destroy()] throws
    [TypeError: destroy is not a function]. *)
Theorem destroy_throws_on_youtube :
  exists s0 a,
    start youtube_page = Some s0 /\
    fst (Media.load host s0) = Ok tt /\
    Media.media (Media.this (after (Media.load host) s0)) = SAdapter a /\
    a_class a = YouTubeMedia /\
    fst (Media.destroy host (after (Media.load host) s0)) =
      Throw (TypeError "destroy is not a function").
Proof.
  eexists. eexists. split; [apply start_youtube|].
  repeat split.
Qed.

(** C8.  With the YouTube backend selected, [media.src = 'movie.mp4']
    throws [ReferenceError: predictType is not defined] and the list read
    back is unchanged: nothing was appended. *)
Theorem set_src_string_throws :
  exists s0,
    start youtube_page = Some s0 /\
    let s1 := after (Media.load host) s0 in
    Media.set_src host (VStr "movie.mp4") s1 =
      (Throw (ReferenceError "predictType is not defined"), s1) /\
    Media.files (after (Media.set_src host (VStr "movie.mp4")) s1) = Media.files s0.
Proof.
  eexists. split; [apply start_youtube|]. repeat split.
Qed.

(** C6.  A Vimeo iframe whose adapter is still loading its library:
    [load()], [play()], [pause()], then the microtasks run.  The queue
    drains with [pause] called on the adapter and [play] not yet called;
    [play] is called only later, once the readiness promise is fulfilled,
    so the pause was delivered before the pending play. *)
Theorem pause_overtakes_pending_play :
  exists s0 a,
    start vimeo_page = Some s0 /\
    let s1 := after (Media.load host) s0 in
    let s2 := after Media.play s1 in
    let s3 := after (Media.pause host) s2 in
    let s4 := Media.run_jobs host 10 s3 in
    let s5 := Media.run_jobs host 10 (Media.ready (a_promise a) s4) in
    Media.media (Media.this s1) = SAdapter a /\
    promises (Media.world s1) !! a_promise a = Some (Pending [(CbLoad, 1)]) /\
    jobs (Media.world s4) = [] /\
    calls (trace (Media.world s4)) = ["pause"] /\
    jobs (Media.world s5) = [] /\
    calls (trace (Media.world s5)) = ["pause"; "load"; "play"].
Proof.
  eexists. eexists. split; [apply start_vimeo|].
  repeat split.
Qed.

(** With an adapter that is ready when it is built (Dailymotion here), the
    same three calls deliver [play] before [pause]. *)
Example play_then_pause_when_ready :
  let s0 := fresh (iframe "https://www.dailymotion.com/embed/video/x1")
              [Some (descriptor "video/x-dailymotion"
                       "https://www.dailymotion.com/embed/video/x1")] in
  let s3 := after (Media.pause host) (after Media.play (after (Media.load host) s0)) in
  calls (trace (Media.world (Media.run_jobs host 10 s3))) = ["load"; "play"; "pause"].
Proof. reflexivity. Qed.

(** C7, counterexample.  With the YouTube backend selected,
    [media.src = {url: 'movie.mp4'}] returns normally and leaves in
    [mediaFiles] an entry with neither a [src] nor a [type] field. *)
Lemma setter_stores_any_object :
  exists s0,
    start youtube_page = Some s0 /\
    let s1 := after (Media.load host) s0 in
    let o := VObj [("url", VStr "movie.mp4")] in
    fst (Media.set_src host o s1) = Ok tt /\
    In (Some o) (Media.files (after (Media.set_src host o) s1)) /\
    has_field "src" o = false /\ has_field "type" o = false.
Proof.
  eexists. split; [apply start_youtube|]. simpl. repeat split. right. now left.
Qed.

(** C9, counterexample.  An iframe of an unknown provider: the first
    [load()] throws off the [null] backend and leaves [this.media] at
    [null]; the caller then assigns the one-slot array [[ , ]] (the setter
    stores it before it throws); the next [load()] finds a non-zero length,
    calls the callback for no index, and throws the guarded
    [TypeError('Media cannot be played with any valid media type')]. *)
Lemma guard_thrown_on_elided_elements :
  exists s0,
    start unknown_page = Some s0 /\
    let s1 := after (Media.load host) s0 in
    let s2 := assign_array [None] s1 in
    fst (Media.load host s0) = Throw (TypeError "Cannot read properties of null") /\
    Media.media (Media.this s1) = SNull /\
    length (Media.files s2) = 1 /\
    Media.load host s2 =
      (Throw (TypeError "Media cannot be played with any valid media type"), s2).
Proof.
  eexists. split; [apply start_unknown|]. repeat split.
Qed.

(** *** Instances of the general theorems *)

Lemma load_empty_media_not_set_witness :
  let s := assign_array []
             (fresh youtube_page
                [Some (descriptor "application/x-youtube"
                         "https://www.youtube.com/embed/abc")]) in
  length (Media.files s) = 0 /\
  Media.load host s = (Throw (TypeError "Media not set"), s).
Proof.
  split; [reflexivity|].
  apply (load_empty_media_not_set host). reflexivity.
Defined.



Lemma native_adapter_precedence_witness :
  let d := descriptor "application/x-mpegURL" "https://example.com/live/stream.m3u8" in
  let s := fresh video_page [Some d] in
  isIframe host (Media.element (Media.this s)) = false /\
  spec_native_adapter host (VStr "https://example.com/live/stream.m3u8") = HlsMedia /\
  (exists a, Media.media (Media.this (snd (Media.load_select host d s))) = SAdapter a /\
             a_class a = HlsMedia) /\
  (exists a s',
     Media.load_select host d s = (Ok tt, s') /\
     Media.media (Media.this s') = SAdapter a /\
     In (a_class a) [HlsMedia; DashMedia; NativeMedia]).
Proof.
  intros d s.
  destruct (native_adapter_precedence host s d eq_refl) as [H1 H2].
  split; [reflexivity|]. split; [reflexivity|]. split.
  - edestruct (H1 (VStr "https://example.com/live/stream.m3u8")) as [Hsel Hc];
      [reflexivity | reflexivity |].
    eexists. rewrite Hsel. split; [reflexivity | exact Hc].
  - apply H2. eexists. reflexivity.
Defined.

Lemma mediaFiles_descriptors_witness :
  let s := after (Media.load host)
             (fresh youtube_page
                [Some (descriptor "application/x-youtube"
                         "https://www.youtube.com/embed/abc")]) in
  let v := VObj [("src", VStr "movie.mp4"); ("type", VStr "video/mp4")] in
  isIframe host youtube_page = true /\
  all_descriptors (Media.files s) = true /\
  storable (Media.world s) v = true /\
  (exists m w',
     Media.constructor host youtube_page empty_world = (Ok m, w') /\
     all_descriptors (Media.files {| Media.this := m; Media.world := w' |}) = true) /\
  all_descriptors (Media.files (snd (Media.set_src host v s))) = true.
Proof.
  intros s v.
  destruct (mediaFiles_descriptors host) as [H1 H2].
  split; [reflexivity|]. split; [reflexivity|]. split; [reflexivity|]. split.
  - destruct (H1 youtube_page empty_world eq_refl) as (m & w' & Hc & _ & Hall).
    exists m, w'. split; [exact Hc | exact Hall].
  - apply H2; reflexivity.
Defined.

Lemma load_null_backend_witness :
  let d := descriptor "video/mp4" "https://example.com/player" in
  let s := fresh unknown_page [Some d] in
  let s' := assign_array [None] (after (Media.load host) s) in
  Media.files s = [Some d] /\
  isIframe host (Media.element (Media.this s)) = true /\
  get_prop d "src" = Ok (VStr "https://example.com/player") /\
  spec_iframe_adapter host (VStr "https://example.com/player") = None /\
  Media.load host s =
    (Throw (TypeError "Cannot read properties of null"), Media.with_media SNull s) /\
  fst (Media.load host s) <> Throw no_valid_type /\
  fst (Media.load host s') = Throw no_valid_type.
Proof.
  intros d s s'.
  destruct (load_null_backend host s) as [H1 H2].
  destruct (load_null_backend host s') as [_ H2'].
  split; [reflexivity|]. split; [reflexivity|]. split; [reflexivity|].
  split; [reflexivity|]. split; [|split].
  - apply (H1 d [] (VStr "https://example.com/player")); reflexivity.
  - intros Hg. apply H2 in Hg. destruct Hg as (_ & Hn & _).
    apply (Hn d). now left.
  - apply H2'. split; [discriminate|]. split.
    + intros x [Hx|[]]. discriminate Hx.
    + reflexivity.
Defined.

(** ** Further properties of the two classes *)

(** *** What [load()] leaves alone *)

Lemma calls_app t t' : calls (t ++ t') = calls t ++ calls t'.
Proof.
  induction t as [|e t IH]; simpl; [reflexivity|].
  destruct e; simpl; now rewrite ?IH.
Qed.

Lemma untouched_refl s : untouched_by_load s s.
Proof. repeat split. Qed.

Lemma untouched_trans s1 s2 s3 :
  untouched_by_load s1 s2 -> untouched_by_load s2 s3 -> untouched_by_load s1 s3.
Proof.
  intros (A1 & A2 & A3 & A4 & A5) (B1 & B2 & B3 & B4 & B5).
  repeat split; congruence.
Qed.

Section SomeFrame.
Context {S : Type} (cb : value -> M S bool) (R : S -> S -> Prop).
Hypothesis R_refl : forall s, R s s.
Hypothesis R_trans : forall a b c, R a b -> R b c -> R a c.
Hypothesis R_cb : forall x s, R s (snd (cb x s)).

Lemma some_preserves xs s : R s (snd (Media.some cb xs s)).
Proof.
  revert s. induction xs as [|[x|] xs IH]; intros s; simpl.
  - apply R_refl.
  - unfold bind. pose proof (R_cb x s) as Hx.
    destruct (cb x s) as [[[|]|e] s1]; simpl in *; auto.
    eapply R_trans; [exact Hx | apply IH].
  - apply IH.
Qed.
End SomeFrame.

Section LoadFrame.
Variable I : Imports.

Lemma new_adapter_quiet k el d w :
  arrays (snd (Media.new_adapter I k el d w)) = arrays w /\
  jobs (snd (Media.new_adapter I k el d w)) = jobs w /\
  calls (trace (snd (Media.new_adapter I k el d w))) = calls (trace w).
Proof.
  unfold Media.new_adapter, YouTubeMedia.constructor, log, new_promise.
  unfold_monad.
  destruct k; simpl;
    try (destruct (ext_new I _ el d) as [r|]; simpl);
    rewrite calls_app; simpl; rewrite app_nil_r; auto.
Qed.

Lemma adapter_canPlayType_quiet a mime w :
  arrays (snd (Media.adapter_canPlayType I a mime w)) = arrays w /\
  promises (snd (Media.adapter_canPlayType I a mime w)) = promises w /\
  jobs (snd (Media.adapter_canPlayType I a mime w)) = jobs w /\
  calls (trace (snd (Media.adapter_canPlayType I a mime w))) = calls (trace w).
Proof.
  unfold Media.adapter_canPlayType, YouTubeMedia.canPlayType, log.
  unfold_monad.
  destruct (Media.adapter_has I a "canPlayType"); [|now simpl].
  destruct (a_class a); simpl;
    try (destruct (ext_canPlayType I a mime); simpl;
         rewrite calls_app; simpl; rewrite app_nil_r; now auto).
  destruct (strict_eq_str mime "application/x-youtube"); simpl;
    [destruct (get_prop (a_media a) "type"); simpl|];
    rewrite calls_app; simpl; rewrite app_nil_r; auto.
Qed.
Lemma new_adapter_bind_quiet k el d w :
  arrays (snd ((a <- Media.new_adapter I k el d ;; ret (SAdapter a)) w)) = arrays w /\
  calls (trace (snd ((a <- Media.new_adapter I k el d ;; ret (SAdapter a)) w)))
    = calls (trace w).
Proof.
  unfold bind, ret.
  pose proof (new_adapter_quiet k el d w) as (Ha & _ & Hc).
  destruct (Media.new_adapter I k el d w) as [[a|e] w1]; simpl in *; auto.
Qed.

Lemma get_prop_throw_bind {A} v n e (k : value -> M World A) w :
  get_prop v n = Throw e ->
  (x <- lift_result (get_prop v n) ;; k x) w = (Throw e, w).
Proof. intros H. unfold bind, lift_result. now rewrite H. Qed.

Lemma _loadIframeSource_quiet el d w :
  arrays (snd (Media._loadIframeSource I el d w)) = arrays w /\
  calls (trace (snd (Media._loadIframeSource I el d w))) = calls (trace w).
Proof.
  destruct (get_prop d "src") as [url|e] eqn:E.
  - rewrite (_loadIframeSource_spec I el d url w E).
    destruct (spec_iframe_adapter I url) as [k|];
      [apply new_adapter_bind_quiet | now simpl].
  - unfold Media._loadIframeSource.
    rewrite (get_prop_throw_bind _ _ _ _ _ E). now simpl.
Qed.

Lemma _loadNativeSource_quiet el d w :
  arrays (snd (Media._loadNativeSource I el d w)) = arrays w /\
  calls (trace (snd (Media._loadNativeSource I el d w))) = calls (trace w).
Proof.
  destruct (get_prop d "src") as [url|e] eqn:E.
  - rewrite (_loadNativeSource_spec I el d url w E).
    apply new_adapter_bind_quiet.
  - unfold Media._loadNativeSource.
    rewrite (get_prop_throw_bind _ _ _ _ _ E). now simpl.
Qed.

Lemma load_select_untouched d s :
  untouched_by_load s (snd (Media.load_select I d s)).
Proof.
  unfold Media.load_select. unfold_monad.
  assert (Hm : arrays (snd ((if isIframe I (Media.element (Media.this s))
                then Media._loadIframeSource I (Media.element (Media.this s)) d
                else Media._loadNativeSource I (Media.element (Media.this s)) d)
                 (Media.world s))) = arrays (Media.world s) /\
          calls (trace (snd ((if isIframe I (Media.element (Media.this s))
                then Media._loadIframeSource I (Media.element (Media.this s)) d
                else Media._loadNativeSource I (Media.element (Media.this s)) d)
                 (Media.world s)))) = calls (trace (Media.world s))).
  { destruct (isIframe I (Media.element (Media.this s)));
      [apply _loadIframeSource_quiet | apply _loadNativeSource_quiet]. }
  set (m := if isIframe I (Media.element (Media.this s))
            then Media._loadIframeSource I (Media.element (Media.this s)) d
            else Media._loadNativeSource I (Media.element (Media.this s)) d) in *.
  destruct (m (Media.world s)) as [[sl|e0] w0]; simpl in *.
  - unfold untouched_by_load. simpl. tauto.
  - pose proof (new_adapter_quiet NativeMedia (Media.element (Media.this s)) d w0)
      as (Ha & _ & Hc).
    destruct (Media.new_adapter I NativeMedia (Media.element (Media.this s)) d w0)
      as [[a|e1] w1]; unfold untouched_by_load; simpl in *;
      repeat split; try congruence; destruct Hm; congruence.
Qed.

Lemma canPlayType_untouched mime s :
  untouched_by_load s (snd (Media.canPlayType I mime s)).
Proof.
  unfold Media.canPlayType. unfold_monad.
  destruct (Media.media (Media.this s)) as [| |a]; try apply untouched_refl.
  pose proof (adapter_canPlayType_quiet a mime (Media.world s)) as (Ha & _ & _ & Hc).
  destruct (Media.adapter_canPlayType I a mime (Media.world s)) as [[v|e] w];
    unfold untouched_by_load; simpl in *; tauto.
Qed.

Lemma load_callback_untouched d s :
  untouched_by_load s (snd (Media.load_callback I d s)).
Proof.
  unfold Media.load_callback. unfold bind, lift_result.
  pose proof (load_select_untouched d s) as H1.
  destruct (Media.load_select I d s) as [[[]|e] s1]; simpl in *; [|exact H1].
  destruct (get_prop d "type") as [ty|e]; simpl; [|exact H1].
  eapply untouched_trans; [exact H1 | apply canPlayType_untouched].
Qed.

Lemma load_finish_untouched s :
  untouched_by_load s (snd (Media.load_finish s)).
Proof.
  destruct (load_finish_frame s) as (Ht & Htr & Ha).
  unfold untouched_by_load. rewrite Ht, Htr, Ha. tauto.
Qed.

Lemma load_untouched s : untouched_by_load s (snd (Media.load I s)).
Proof.
  unfold Media.load. unfold bind at 1. unfold gets.
  destruct (Nat.eqb (length (Media.files s)) 0); [apply untouched_refl|].
  unfold bind.
  pose proof (some_preserves (Media.load_callback I) untouched_by_load
                untouched_refl untouched_trans load_callback_untouched
                (Media.files s) s) as Hs.
  destruct (Media.some (Media.load_callback I) (Media.files s) s) as [[b|e] s1];
    simpl in *; [|exact Hs].
  eapply untouched_trans; [exact Hs | apply load_finish_untouched].
Qed.

(** X1. [load()] never changes the list of sources: after the call,
    whether it returned or threw, [this.mediaFiles] is the same array with
    the same elements, and every other array is as it was. *)
Theorem load_keeps_sources (s : Media.State) :
  Media.files (snd (Media.load I s)) = Media.files s /\
  Media.mediaFiles (Media.this (snd (Media.load I s))) =
    Media.mediaFiles (Media.this s) /\
  arrays (Media.world (snd (Media.load I s))) = arrays (Media.world s).
Proof.
  destruct (load_untouched s) as (_ & Hm & _ & Ha & _).
  unfold Media.files, array_get. rewrite Hm, Ha. auto.
Qed.

(** X2. [load()] itself calls no method of an adapter or of the element
    other than constructors and [canPlayType]: no [play], [pause], [load],
    [src] or [destroy] is called before it returns -- the backend's [load]
    is left to a microtask, and a backend selected earlier is dropped
    without [destroy].  The element and [promisePlay] are untouched too. *)
Theorem load_calls_no_method (s : Media.State) :
  calls (trace (Media.world (snd (Media.load I s)))) =
    calls (trace (Media.world s)) /\
  Media.element (Media.this (snd (Media.load I s))) =
    Media.element (Media.this s) /\
  Media.promisePlay (Media.this (snd (Media.load I s))) =
    Media.promisePlay (Media.this s).
Proof.
  destruct (load_untouched s) as (He & _ & Hp & _ & Hc). auto.
Qed.

End LoadFrame.

(** *** What each step of a script can change in the [Media] object *)

Lemma liftW_this {A} (m : M World A) s :
  Media.this (snd (Media.liftW m s)) = Media.this s.
Proof. unfold Media.liftW. now destruct (m (Media.world s)). Qed.

Lemma play_this s :
  Media.element (Media.this (snd (Media.play s))) = Media.element (Media.this s) /\
  Media.mediaFiles (Media.this (snd (Media.play s))) = Media.mediaFiles (Media.this s) /\
  Media.media (Media.this (snd (Media.play s))) = Media.media (Media.this s) /\
  (Media.promisePlay (Media.this s) <> None ->
   Media.promisePlay (Media.this (snd (Media.play s))) <> None).
Proof.
  unfold Media.play, new_promise. unfold_monad. simpl.
  destruct (then_ _ CbPlayOuter _) as [[p|e] w]; simpl; repeat split; auto;
    discriminate.
Qed.

Section Steps.
Variable I : Imports.

Lemma pause_this s : Media.this (snd (Media.pause I s)) = Media.this s.
Proof.
  unfold Media.pause. unfold_monad.
  destruct (Media.media (Media.this s)) as [| |a]; try reflexivity.
  destruct (Media.promisePlay (Media.this s)) as [p|].
  - destruct (then_ p _ (Media.world s)) as [[q|e] w]; reflexivity.
  - destruct (Media.call_method I _ "pause" [] (Media.world s)) as [[u|e] w];
      reflexivity.
Qed.

Lemma destroy_this s : Media.this (snd (Media.destroy I s)) = Media.this s.
Proof.
  unfold Media.destroy. unfold_monad.
  destruct (Media.media (Media.this s)) as [| |a]; try reflexivity.
  destruct (Media.call_method I _ "destroy" [] (Media.world s)) as [[u|e] w];
    reflexivity.
Qed.

Lemma store_src_this v s :
  Media.element (Media.this (snd (Media.store_src v s))) = Media.element (Media.this s) /\
  Media.media (Media.this (snd (Media.store_src v s))) = Media.media (Media.this s) /\
  Media.promisePlay (Media.this (snd (Media.store_src v s)))
    = Media.promisePlay (Media.this s) /\
  (isArray v = false ->
   Media.mediaFiles (Media.this (snd (Media.store_src v s)))
     = Media.mediaFiles (Media.this s)).
Proof.
  destruct v; simpl; repeat split; auto; discriminate.
Qed.

Lemma assigns_array_isArray v : assigns_array (CSetSrc v) = isArray v.
Proof. now destruct v. Qed.

Lemma step_this c s :
  Media.element (Media.this (step I c s)) = Media.element (Media.this s) /\
  (is_load c = false ->
   Media.media (Media.this (step I c s)) = Media.media (Media.this s)) /\
  (assigns_array c = false ->
   Media.mediaFiles (Media.this (step I c s)) = Media.mediaFiles (Media.this s)) /\
  (is_play c = false ->
   Media.promisePlay (Media.this (step I c s)) = Media.promisePlay (Media.this s)) /\
  (Media.promisePlay (Media.this s) <> None ->
   Media.promisePlay (Media.this (step I c s)) <> None).
Proof.
  destruct c; simpl.
  - destruct (load_untouched I s) as (He & Hm & Hp & _).
    repeat split; auto; try discriminate. now rewrite Hp.
  - destruct (play_this s) as (He & Hm & Hb & Hp).
    repeat split; auto. discriminate.
  - rewrite pause_this. repeat split; auto.
  - rewrite set_src_this.
    destruct (store_src_this v s) as (He & Hm & Hp & Hf).
    repeat split; auto. now rewrite Hp.
  - repeat split; auto.
  - rewrite destroy_this. repeat split; auto.
  - rewrite canPlayType_this. repeat split; auto.
  - unfold Media.run_job. destruct (jobs (Media.world s)); repeat split; auto.
  - repeat split; auto.
Qed.

(** X3. Whatever a caller does with a [Media] object -- any sequence of
    [load], [play], [pause], [src] assignments and reads, [destroy],
    [canPlayType], microtasks and readiness events -- [this.element] stays
    the element given to the constructor, [promisePlay] changes only in
    [play()], and once [play()] has set it no method resets it to [null]. *)
Theorem element_and_promisePlay_persist (cs : list Call) (s : Media.State) :
  Media.element (Media.this (run I cs s)) = Media.element (Media.this s) /\
  (forallb (fun c => negb (is_play c)) cs = true ->
   Media.promisePlay (Media.this (run I cs s)) = Media.promisePlay (Media.this s)) /\
  (Media.promisePlay (Media.this s) <> None ->
   Media.promisePlay (Media.this (run I cs s)) <> None).
Proof.
  revert s. induction cs as [|c cs IH]; intros s; simpl.
  - auto.
  - destruct (IH (step I c s)) as (He & Hn & Hp).
    destruct (step_this c s) as (He' & _ & _ & Hn' & Hp').
    unfold run in *. simpl. repeat split.
    + congruence.
    + intros H. apply andb_prop in H as [Hc Hcs].
      rewrite (Hn Hcs). apply Hn'. now destruct (is_play c).
    + auto.
Qed.

(** X4. The selected backend changes only in [load()], and
    [this.mediaFiles] is rebound only by assigning an array to [src]:
    across any script without a [load()] the backend is the same, and
    across any script without an array assignment the list is the same
    array object. *)
Theorem backend_and_list_rebinding (cs : list Call) (s : Media.State) :
  (forallb (fun c => negb (is_load c)) cs = true ->
   Media.media (Media.this (run I cs s)) = Media.media (Media.this s)) /\
  (forallb (fun c => negb (assigns_array c)) cs = true ->
   Media.mediaFiles (Media.this (run I cs s)) = Media.mediaFiles (Media.this s)).
Proof.
  revert s. induction cs as [|c cs IH]; intros s; simpl.
  - auto.
  - destruct (IH (step I c s)) as (Hm & Hf).
    destruct (step_this c s) as (_ & Hm' & Hf' & _).
    unfold run in *. simpl. split; intros H; apply andb_prop in H as [Hc Hcs].
    + rewrite (Hm Hcs). apply Hm'. now destruct (is_load c).
    + rewrite (Hf Hcs). apply Hf'. now destruct (assigns_array c).
Qed.

End Steps.

(** *** Methods used without a backend *)

Section NoBackend.
Variable I : Imports.

(** X5. While no backend is selected -- [this.media] is [undefined] in a
    new object, or [null] after a [load()] that found no provider --
    [canPlayType], [pause] and [destroy] throw a [TypeError] and leave the
    whole state as it was. *)
Theorem methods_need_backend (s : Media.State) (mime : value) :
  Media.media (Media.this s) = SUndefined \/ Media.media (Media.this s) = SNull ->
  exists msg,
    Media.canPlayType I mime s = (Throw (TypeError msg), s) /\
    Media.pause I s = (Throw (TypeError msg), s) /\
    Media.destroy I s = (Throw (TypeError msg), s).
Proof.
  intros [H|H]; eexists;
    unfold Media.canPlayType, Media.pause, Media.destroy; unfold_monad;
    rewrite H; repeat split.
Qed.

Lemma notify_src_no_backend s :
  Media.media (Media.this s) = SUndefined \/ Media.media (Media.this s) = SNull ->
  exists msg, Media.notify_src I s = (Throw (TypeError msg), s).
Proof.
  intros [H|H]; eexists; unfold Media.notify_src; unfold_monad;
    rewrite H; reflexivity.
Qed.

(** X6. The [src] setter is not atomic: without a backend it throws a
    [TypeError], but only after it has stored its argument.  An assigned
    array is what the getter returns afterwards, and an assigned object has
    been appended to the list. *)
Theorem set_src_stores_before_it_throws (s : Media.State) :
  Media.media (Media.this s) = SUndefined \/ Media.media (Media.this s) = SNull ->
  (forall r,
      (exists msg, fst (Media.set_src I (VArr r) s) = Throw (TypeError msg)) /\
      fst (Media.get_src (snd (Media.set_src I (VArr r) s))) = Ok (VArr r)) /\
  (forall fs,
      Media.mediaFiles (Media.this s) < length (arrays (Media.world s)) ->
      (exists msg, fst (Media.set_src I (VObj fs) s) = Throw (TypeError msg)) /\
      Media.files (snd (Media.set_src I (VObj fs) s)) =
        Media.files s ++ [Some (VObj fs)]).
Proof.
  intros Hm. split.
  - intros r. unfold Media.set_src, bind. rewrite store_src_array.
    destruct (notify_src_no_backend
                {| Media.this := {| Media.element := Media.element (Media.this s);
                                    Media.mediaFiles := r;
                                    Media.promisePlay := Media.promisePlay (Media.this s);
                                    Media.media := Media.media (Media.this s) |};
                   Media.world := Media.world s |} Hm) as [msg Hn].
    rewrite Hn. simpl. split; [eauto|reflexivity].
  - intros fs Hlt. unfold Media.set_src, bind. rewrite store_src_object.
    destruct (notify_src_no_backend
                {| Media.this := Media.this s;
                   Media.world := snd (array_push (Media.mediaFiles (Media.this s))
                                         (VObj fs) (Media.world s)) |} Hm)
      as [msg Hn].
    rewrite Hn. split; [simpl; eauto|].
    unfold Media.files. cbn [snd Media.this Media.world]. rewrite array_get_push.
    destruct (decide (Media.mediaFiles (Media.this s) < length (arrays (Media.world s))));
      [reflexivity | contradiction].
Qed.

End NoBackend.

(** *** The [src] setter with a backend *)

Section Setter.
Variable I : Imports.

Lemma set_src_arrays v s :
  arrays (Media.world (snd (Media.set_src I v s))) =
    arrays (Media.world (snd (Media.store_src v s))).
Proof.
  unfold Media.set_src, bind.
  destruct (Media.store_src v s) as [[u|e] s1]; [|reflexivity].
  apply notify_src_frame.
Qed.

Lemma array_get_arrays r w w' : arrays w' = arrays w -> array_get r w' = array_get r w.
Proof. intros H. unfold array_get. now rewrite H. Qed.

(** X7. With a backend that has no [src] method (the YouTube adapter is
    one), assigning [undefined], a boolean or a number to [src] does
    nothing at all, while assigning [null] -- whose [typeof] is
    ['object'] -- appends [null] to the list. *)
Theorem set_src_by_type (s : Media.State) (a : Adapter) :
  Media.media (Media.this s) = SAdapter a ->
  Media.adapter_has I a "src" = false ->
  (forall v, typeof v <> "string" -> typeof v <> "object" ->
             Media.set_src I v s = (Ok tt, s)) /\
  (Media.mediaFiles (Media.this s) < length (arrays (Media.world s)) ->
   fst (Media.set_src I VNull s) = Ok tt /\
   Media.files (snd (Media.set_src I VNull s)) = Media.files s ++ [Some VNull]).
Proof.
  intros Hm Hhas. split.
  - intros v Hs Ho. unfold Media.set_src, Media.notify_src.
    destruct v; simpl in Hs, Ho; try congruence;
      unfold_monad; simpl; rewrite Hm, Hhas; now destruct s.
  - intros Hlt. split.
    + unfold Media.set_src, Media.notify_src. unfold_monad. simpl.
      now rewrite Hm, Hhas.
    + rewrite set_src_files. unfold Media.files. simpl.
      change (set_arrays _ (Media.world s))
        with (snd (array_push (Media.mediaFiles (Media.this s)) VNull (Media.world s))).
      rewrite array_get_push.
      destruct (decide (Media.mediaFiles (Media.this s)
                        < length (arrays (Media.world s))));
        [reflexivity | contradiction].
Qed.

(** X8. After an array is assigned to [src], a backend that has a [src]
    method is called exactly once, with the very array that was assigned,
    and the assignment returns normally exactly when that call does; a
    backend without a [src] method is not called and the assignment
    returns normally. *)
Theorem set_src_notifies_backend (s : Media.State) (a : Adapter) (r : nat) :
  Media.media (Media.this s) = SAdapter a ->
  (Media.adapter_has I a "src" = true ->
   trace (Media.world (snd (Media.set_src I (VArr r) s))) =
     trace (Media.world s) ++ [EvCall (TAdapter a) "src" [VArr r]] /\
   (fst (Media.set_src I (VArr r) s) = Ok tt <->
    ext_returns I (a_class a) "src" = true)) /\
  (Media.adapter_has I a "src" = false ->
   trace (Media.world (snd (Media.set_src I (VArr r) s))) = trace (Media.world s) /\
   fst (Media.set_src I (VArr r) s) = Ok tt).
Proof.
  intros Hm. split; intros Hhas.
  - unfold Media.set_src, bind. rewrite store_src_array.
    unfold Media.notify_src, Media.call_method, log. unfold_monad. simpl.
    rewrite Hm, Hhas.
    unfold Media.adapter_has in Hhas.
    destruct (a_class a) eqn:Ec; simpl in *; try discriminate Hhas;
      destruct (ext_returns I _ "src"); simpl;
      (split; [reflexivity | split; congruence]).
  - unfold Media.set_src, bind. rewrite store_src_array.
    unfold Media.notify_src. unfold_monad. simpl.
    rewrite Hm, Hhas. simpl. auto.
Qed.

(** X9. The list is shared with the caller: after [media.src = a] for an
    array [a], a later [media.src = obj] pushes [obj] onto the caller's own
    array [a], which is also what the getter returns; the list the [Media]
    object held before is left as it was. *)
Theorem setter_appends_to_callers_array (s : Media.State) (r : nat)
    (fs : list (string * value)) :
  r < length (arrays (Media.world s)) ->
  let s1 := snd (Media.set_src I (VArr r) s) in
  let s2 := snd (Media.set_src I (VObj fs) s1) in
  array_get r (Media.world s2) = array_get r (Media.world s) ++ [Some (VObj fs)] /\
  fst (Media.get_src s2) = Ok (VArr r) /\
  (Media.mediaFiles (Media.this s) <> r ->
   array_get (Media.mediaFiles (Media.this s)) (Media.world s2) =
     array_get (Media.mediaFiles (Media.this s)) (Media.world s)).
Proof.
  intros Hlt s1 s2.
  assert (Ht1 : Media.mediaFiles (Media.this s1) = r).
  { unfold s1. now rewrite set_src_this, store_src_array. }
  assert (Ha1 : arrays (Media.world s1) = arrays (Media.world s)).
  { unfold s1. now rewrite set_src_arrays, store_src_array. }
  assert (Ha2 : arrays (Media.world s2) =
                arrays (snd (array_push r (VObj fs) (Media.world s1)))).
  { unfold s2. rewrite set_src_arrays, store_src_object. simpl. now rewrite Ht1. }
  assert (Ht2 : Media.mediaFiles (Media.this s2) = r).
  { unfold s2. rewrite set_src_this, store_src_object. exact Ht1. }
  repeat split.
  - rewrite (array_get_arrays _ _ _ Ha2), array_get_push, Ha1.
    destruct (decide (r < length (arrays (Media.world s)))); [|contradiction].
    now rewrite (array_get_arrays _ _ _ Ha1).
  - unfold Media.get_src. unfold_monad. simpl. now rewrite Ht2.
  - intros Hne. rewrite (array_get_arrays _ _ _ Ha2).
    rewrite array_get_push_ne by congruence.
    now apply array_get_arrays.
Qed.

End Setter.

(** *** [canPlayType] with the YouTube adapter *)

Lemma strict_eq_str_true v x : strict_eq_str v x = true <-> v = VStr x.
Proof.
  destruct v; simpl; try (split; [discriminate | intros H; discriminate H]).
  rewrite String.eqb_eq. split; [now intros -> | now intros [= ->]].
Qed.

Section YouTubeCanPlayType.
Variable I : Imports.

(** X10. With the YouTube adapter selected, [canPlayType(mime)] answers
    [true] exactly when [mime] is ['application/x-youtube'] and the
    descriptor the adapter was built from carries that same type; it
    throws only for that MIME type on an adapter built from [null] or
    [undefined]; and it never changes the [Media] object. *)
Theorem canPlayType_youtube (s : Media.State) (a : Adapter) (mime : value) :
  Media.media (Media.this s) = SAdapter a ->
  a_class a = YouTubeMedia ->
  (fst (Media.canPlayType I mime s) = Ok true <->
   mime = VStr "application/x-youtube" /\
   get_prop (a_media a) "type" = Ok (VStr "application/x-youtube")) /\
  (forall e, fst (Media.canPlayType I mime s) = Throw e ->
             mime = VStr "application/x-youtube" /\
             (a_media a = VUndefined \/ a_media a = VNull)) /\
  Media.this (snd (Media.canPlayType I mime s)) = Media.this s.
Proof.
  intros Hm Hc. split; [|split; [|apply canPlayType_this]].
  - unfold Media.canPlayType, Media.adapter_canPlayType, Media.adapter_has,
      YouTubeMedia.canPlayType, log. unfold_monad. rewrite Hm, Hc. simpl.
    destruct (strict_eq_str mime "application/x-youtube") eqn:Em; simpl.
    + apply strict_eq_str_true in Em. subst mime.
      destruct (get_prop (a_media a) "type") as [ty|e] eqn:Et; simpl.
      * destruct (strict_eq_str ty "application/x-youtube") eqn:Ety; simpl.
        -- apply strict_eq_str_true in Ety. subst ty. tauto.
        -- split; [discriminate|]. intros [_ [= ->]]. simpl in Ety.
           discriminate Ety.
      * split; [discriminate|]. intros [_ H]. discriminate H.
    + split; [discriminate|]. intros [-> _]. simpl in Em. discriminate Em.
  - intros e.
    unfold Media.canPlayType, Media.adapter_canPlayType, Media.adapter_has,
      YouTubeMedia.canPlayType, log. unfold_monad. rewrite Hm, Hc. simpl.
    destruct (strict_eq_str mime "application/x-youtube") eqn:Em; simpl;
      [|discriminate].
    apply strict_eq_str_true in Em. subst mime.
    destruct (a_media a); simpl; try discriminate; auto.
Qed.

End YouTubeCanPlayType.

(** *** The [catch] branch of the [load] loop *)

Section Fallback.
Variable I : Imports.

Lemma new_adapter_ext_throws k el d w :
  k <> YouTubeMedia ->
  ext_new I k el d = None ->
  exists e, Media.new_adapter I k el d w =
              (Throw e, set_trace (fun t => t ++ [EvNew k el d]) w).
Proof.
  intros Hk Hn. unfold Media.new_adapter, log. unfold_monad.
  destruct k; try congruence; rewrite Hn; eauto.
Qed.

Lemma chooser_ext_throws el d url k w :
  get_prop d "src" = Ok url ->
  chosen I el url = Some k ->
  k <> YouTubeMedia ->
  ext_new I k el d = None ->
  exists e,
    (if isIframe I el then Media._loadIframeSource I el d
     else Media._loadNativeSource I el d) w =
      (Throw e, set_trace (fun t => t ++ [EvNew k el d]) w).
Proof.
  intros Hsrc Hch Hk Hn. unfold chosen in Hch.
  destruct (new_adapter_ext_throws k el d w Hk Hn) as [e He].
  exists e. destruct (isIframe I el).
  - rewrite (_loadIframeSource_spec I el d url w Hsrc), Hch.
    unfold bind. now rewrite He.
  - rewrite (_loadNativeSource_spec I el d url w Hsrc).
    inversion Hch; subst. unfold bind. now rewrite He.
Qed.

Lemma chooser_no_descriptor el d e w :
  get_prop d "src" = Throw e ->
  (if isIframe I el then Media._loadIframeSource I el d
   else Media._loadNativeSource I el d) w = (Throw e, w).
Proof.
  intros H. destruct (isIframe I el);
    [unfold Media._loadIframeSource | unfold Media._loadNativeSource];
    apply get_prop_throw_bind; exact H.
Qed.

Lemma fallback_installs_native (s : Media.State) (d : value) :
  (exists e, get_prop d "src" = Throw e) \/
  (exists url k,
      get_prop d "src" = Ok url /\
      chosen I (Media.element (Media.this s)) url = Some k /\
      k <> YouTubeMedia /\
      ext_new I k (Media.element (Media.this s)) d = None) ->
  is_Some (ext_new I NativeMedia (Media.element (Media.this s)) d) ->
  exists a w',
    Media.load_select I d s =
      (Ok tt, Media.with_media (SAdapter a)
                {| Media.this := Media.this s; Media.world := w' |}) /\
    a_class a = NativeMedia /\
    a_element a = Media.element (Media.this s) /\
    a_media a = d.
Proof.
  intros Hfail [r Hr].
  assert (exists e w1,
            (if isIframe I (Media.element (Media.this s))
             then Media._loadIframeSource I (Media.element (Media.this s)) d
             else Media._loadNativeSource I (Media.element (Media.this s)) d)
              (Media.world s) = (Throw e, w1)) as (e & w1 & Hch).
  { destruct Hfail as [[e He]|(url & k & Hsrc & Hk & Hny & Hn)].
    - exists e, (Media.world s). now apply chooser_no_descriptor.
    - destruct (chooser_ext_throws _ d url k (Media.world s) Hsrc Hk Hny Hn)
        as [e He]. eauto. }
  destruct (new_native_ok I _ _ _ w1 Hr) as (a & w2 & Hnew & Hc).
  exists a, w2. split.
  - unfold Media.load_select. unfold bind at 1. unfold gets.
    unfold try_catch, bind at 1, Media.liftW. rewrite Hch.
    cbv beta iota. unfold bind, Media.liftW. cbn [Media.world Media.this].
    rewrite Hnew. reflexivity.
  - apply new_adapter_class in Hnew. tauto.
Qed.


End Fallback.

(** *** A loop that finds nothing playable *)

Section NothingPlayable.
Variable I : Imports.









(** X13. A [null] or [undefined] entry of the list -- the setter accepts
    both inside an array, and appends [null] itself -- makes [load()]
    throw as soon as the loop reaches it; if the [NativeMedia] constructor
    returns, what is thrown is the [TypeError] of reading [type] off the
    entry, and by then a [NativeMedia] adapter built from that entry has
    become the selected backend. *)
Theorem load_throws_on_null_entry
    (s s1 : Media.State) (pre post : list (option value)) (d : value) :
  d = VNull \/ d = VUndefined ->
  Media.files s = pre ++ Some d :: post ->
  Media.some (Media.load_callback I) pre s = (Ok false, s1) ->
  (exists e, fst (Media.load I s) = Throw e) /\
  (is_Some (ext_new I NativeMedia (Media.element (Media.this s1)) d) ->
   exists msg a,
     fst (Media.load I s) = Throw (TypeError msg) /\
     Media.media (Media.this (snd (Media.load I s))) = SAdapter a /\
     a_class a = NativeMedia /\ a_media a = d).
Proof.
  intros Hd Hf Hpre.
  assert (Hload : Media.load I s =
            match Media.load_callback I d s1 with
            | (Ok true, s2) => Media.load_finish s2
            | (Ok false, s2) =>
                match Media.some (Media.load_callback I) post s2 with
                | (Ok _, s3) => Media.load_finish s3
                | (Throw e, s3) => (Throw e, s3)
                end
            | (Throw e, s2) => (Throw e, s2)
            end).
  { rewrite load_nonempty by (rewrite Hf; now destruct pre).
    rewrite Hf, (some_app_false _ _ _ _ _ Hpre). simpl. unfold bind.
    destruct (Media.load_callback I d s1) as [[[|]|e] s2]; reflexivity. }
  assert (Hsrc : exists e, get_prop d "src" = Throw e /\ get_prop d "type" = Throw e
                           /\ exists msg, e = TypeError msg).
  { destruct Hd as [-> | ->]; simpl; eauto. }
  destruct Hsrc as (e & Hsrc & Hty & msg & He).
  unfold Media.load_callback in Hload. unfold bind at 1 in Hload.
  split.
  - destruct (Media.load_select I d s1) as [[[]|e1] s2] eqn:Es.
    + unfold bind, lift_result in Hload. rewrite Hty in Hload.
      rewrite Hload. simpl. eauto.
    + rewrite Hload. simpl. eauto.
  - intros Hn.
    destruct (fallback_installs_native I s1 d) as (a & w' & Hsel & Hc & _ & Hmd);
      [left; eauto | exact Hn |].
    rewrite Hsel in Hload. unfold bind, lift_result in Hload. rewrite Hty in Hload.
    rewrite Hload. simpl. exists msg, a. subst e. auto.
Qed.

End NothingPlayable.

(** *** Promises: [play] and [pause] *)

Lemma lookup_snoc {A} (l : list A) (x : A) : (l ++ [x]) !! length l = Some x.
Proof. now apply list_lookup_middle. Qed.

Lemma lookup_snoc2 {A} (l : list A) (x y : A) :
  (l ++ [x; y]) !! S (length l) = Some y.
Proof.
  change (l ++ [x; y]) with (l ++ [x] ++ [y]). rewrite app_assoc.
  replace (S (length l)) with (length (l ++ [x])) by (rewrite length_app; simpl; lia).
  apply lookup_snoc.
Qed.

Lemma then_fulfilled p cb w :
  promises w !! p = Some Fulfilled ->
  then_ p cb w =
    (Ok (length (promises w)),
     {| arrays := arrays w; promises := promises w ++ [Pending []];
        jobs := jobs w ++ [JRun cb (length (promises w))]; trace := trace w |}).
Proof.
  intros H. unfold then_, new_promise, enqueue. unfold_monad. now rewrite H.
Qed.

Lemma then_rejected p e cb w :
  promises w !! p = Some (Rejected e) ->
  then_ p cb w =
    (Ok (length (promises w)),
     {| arrays := arrays w; promises := promises w ++ [Pending []];
        jobs := jobs w ++ [JPass e (length (promises w))]; trace := trace w |}).
Proof.
  intros H. unfold then_, new_promise, enqueue. unfold_monad. now rewrite H.
Qed.

Lemma then_pending p rs cb w :
  promises w !! p = Some (Pending rs) ->
  then_ p cb w =
    (Ok (length (promises w)),
     {| arrays := arrays w;
        promises := <[p := Pending (rs ++ [(cb, length (promises w))])]>
                      (promises w ++ [Pending []]);
        jobs := jobs w; trace := trace w |}).
Proof.
  intros H. unfold then_, new_promise, enqueue. unfold_monad. now rewrite H.
Qed.

Lemma play_eq s :
  Media.play s =
    (Ok (S (length (promises (Media.world s)))),
     {| Media.this :=
          {| Media.element := Media.element (Media.this s);
             Media.mediaFiles := Media.mediaFiles (Media.this s);
             Media.promisePlay := Some (S (length (promises (Media.world s))));
             Media.media := Media.media (Media.this s) |};
        Media.world :=
          {| arrays := arrays (Media.world s);
             promises := promises (Media.world s) ++ [Fulfilled; Pending []];
             jobs := jobs (Media.world s)
                       ++ [JRun CbPlayOuter (S (length (promises (Media.world s))))];
             trace := trace (Media.world s) |} |}).
Proof.
  unfold Media.play, new_promise. unfold bind at 1. unfold Media.liftW at 1.
  unfold bind at 1. unfold Media.liftW at 1. cbn [Media.world Media.this].
  rewrite then_fulfilled by (simpl; apply lookup_snoc).
  unfold_monad. simpl. rewrite length_app. simpl.
  rewrite <- app_assoc. simpl.
  replace (length (promises (Media.world s)) + 1) with
    (S (length (promises (Media.world s)))) by lia.
  reflexivity.
Qed.

(** X14. [play()] returns normally in every state, even with no backend
    selected: it calls nothing, stores in [promisePlay] the promise it
    returns, which is still pending, and only adds one microtask to the
    queue. *)
Theorem play_never_throws (s : Media.State) :
  exists p,
    fst (Media.play s) = Ok p /\
    Media.promisePlay (Media.this (snd (Media.play s))) = Some p /\
    promises (Media.world (snd (Media.play s))) !! p = Some (Pending []) /\
    jobs (Media.world (snd (Media.play s))) =
      jobs (Media.world s) ++ [JRun CbPlayOuter p] /\
    trace (Media.world (snd (Media.play s))) = trace (Media.world s) /\
    Media.media (Media.this (snd (Media.play s))) = Media.media (Media.this s).
Proof.
  rewrite play_eq. eexists. simpl. repeat split. apply lookup_snoc2.
Qed.

Lemma settle_pending q rs o w :
  promises w !! q = Some (Pending rs) ->
  promises (settle q o w) !! q =
    Some (match o with None => Fulfilled | Some e => Rejected e end) /\
  jobs (settle q o w) =
    jobs w ++ map (fun r => match o with
                            | None => JRun (fst r) (snd r)
                            | Some e => JPass e (snd r)
                            end) rs /\
  trace (settle q o w) = trace w /\
  arrays (settle q o w) = arrays w.
Proof.
  intros H. unfold settle. rewrite H.
  pose proof (lookup_lt_Some _ _ _ H) as Hlt.
  destruct o; simpl; rewrite list_lookup_insert_eq by exact Hlt; auto.
Qed.

Section PlayPause.
Variable I : Imports.

(** X15. [play()] on an object without a backend does not throw: the
    failure surfaces when the microtask runs, as a rejection of the promise
    [play()] returned and stored in [promisePlay], with a [TypeError];
    nothing is called. *)
Theorem play_without_backend_rejects (s : Media.State) :
  Media.media (Media.this s) = SUndefined \/ Media.media (Media.this s) = SNull ->
  jobs (Media.world s) = [] ->
  let s1 := Media.run_job I (snd (Media.play s)) in
  exists p msg,
    fst (Media.play s) = Ok p /\
    Media.promisePlay (Media.this s1) = Some p /\
    promises (Media.world s1) !! p = Some (Rejected (TypeError msg)) /\
    jobs (Media.world s1) = [] /\
    trace (Media.world s1) = trace (Media.world s).
Proof.
  intros Hm Hj. rewrite play_eq. cbn [fst snd].
  unfold Media.run_job. cbn [Media.world Media.this jobs]. rewrite Hj.
  cbn [app]. unfold Media.run_callback. cbn [Media.media].
  set (w := set_jobs _ _).
  assert (Hp : promises w !! S (length (promises (Media.world s)))
               = Some (Pending [])) by apply lookup_snoc2.
  destruct Hm as [Hm|Hm]; rewrite Hm; unfold throw;
    destruct (settle_pending _ _ (Some (TypeError
                (match Media.media (Media.this s) with
                 | SNull => "Cannot read properties of null"
                 | _ => "Cannot read properties of undefined" end))) w Hp)
      as (H1 & H2 & H3 & _); rewrite Hm in *;
    eexists; eexists; cbn [Media.world Media.this Media.promisePlay];
    (split; [reflexivity|]); (split; [reflexivity|]);
    (split; [exact H1|]); (split; [exact H2 | exact H3]).
Qed.

(** X16. Once the promise in [promisePlay] has been rejected, every later
    [pause()] is silently dropped: the call returns normally, but its
    callback hangs on a rejected promise with no rejection handler, so the
    microtask runs without calling [pause] on the backend or the element. *)
Theorem pause_after_failed_play_is_dropped
    (s : Media.State) (a : Adapter) (p : nat) (e : exn) :
  Media.media (Media.this s) = SAdapter a ->
  Media.promisePlay (Media.this s) = Some p ->
  promises (Media.world s) !! p = Some (Rejected e) ->
  jobs (Media.world s) = [] ->
  fst (Media.pause I s) = Ok tt /\
  trace (Media.world (snd (Media.pause I s))) = trace (Media.world s) /\
  let s1 := Media.run_job I (snd (Media.pause I s)) in
  trace (Media.world s1) = trace (Media.world s) /\
  jobs (Media.world s1) = [].
Proof.
  intros Hm Hpp Hp Hj.
  assert (Hpause : Media.pause I s =
            (Ok tt,
             {| Media.this := Media.this s;
                Media.world :=
                  {| arrays := arrays (Media.world s);
                     promises := promises (Media.world s) ++ [Pending []];
                     jobs := [JPass e (length (promises (Media.world s)))];
                     trace := trace (Media.world s) |} |})).
  { unfold Media.pause. unfold_monad. rewrite Hm, Hpp. simpl.
    rewrite (then_rejected p e _ _ Hp). now rewrite Hj. }
  rewrite Hpause. cbn [fst snd Media.world trace]. repeat split.
  - unfold Media.run_job. cbn [Media.world Media.this jobs].
    set (w := set_jobs _ _).
    assert (Hq : promises w !! length (promises (Media.world s))
                 = Some (Pending [])) by apply lookup_snoc.
    destruct (settle_pending _ _ (Some e) w Hq) as (_ & _ & H3 & _).
    cbn [Media.world]. exact H3.
  - unfold Media.run_job. cbn [Media.world Media.this jobs].
    set (w := set_jobs _ _).
    assert (Hq : promises w !! length (promises (Media.world s))
                 = Some (Pending [])) by apply lookup_snoc.
    destruct (settle_pending _ _ (Some e) w Hq) as (_ & H2 & _).
    cbn [Media.world]. exact H2.
Qed.

(** X17. The YouTube adapter has no [pause] method, so with it selected
    and no [play()] made yet, [pause()] goes straight to the element: on an
    element with a [pause] method it is called at once, and on any other
    element (an iframe) the call throws
    [TypeError: pause is not a function], leaving the state untouched. *)
Theorem pause_on_youtube_goes_to_element (s : Media.State) (a : Adapter) :
  Media.media (Media.this s) = SAdapter a ->
  a_class a = YouTubeMedia ->
  Media.promisePlay (Media.this s) = None ->
  (element_has (Media.element (Media.this s)) "pause" = true ->
   Media.pause I s =
     (Ok tt,
      {| Media.this := Media.this s;
         Media.world :=
           set_trace (fun t => t ++ [EvCall (TElement (Media.element (Media.this s)))
                                       "pause" []]) (Media.world s) |})) /\
  (element_has (Media.element (Media.this s)) "pause" = false ->
   Media.pause I s = (Throw (TypeError "pause is not a function"), s)).
Proof.
  intros Hm Hc Hpp.
  split; intros Hel; unfold Media.pause, Media.call_method, Media.adapter_has, log;
    unfold_monad; rewrite Hm, Hpp, Hc; simpl; rewrite Hel;
    [reflexivity | now destruct s].
Qed.

End PlayPause.

(** *** A YouTube iframe, end to end *)

Section YouTubePage.
Variable I : Imports.

Lemma new_youtube el d w :
  Media.new_adapter I YouTubeMedia el d w =
    (Ok {| a_class := YouTubeMedia; a_element := el; a_media := d;
           a_promise := length (promises w) |},
     {| arrays := arrays w; promises := promises w ++ [Fulfilled];
        jobs := jobs w; trace := trace w ++ [EvNew YouTubeMedia el d] |}).
Proof. reflexivity. Qed.

Lemma load_callback_youtube s d url ty :
  isIframe I (Media.element (Media.this s)) = true ->
  get_prop d "src" = Ok url ->
  get_prop d "type" = Ok ty ->
  spec_iframe_adapter I url = Some YouTubeMedia ->
  let a := {| a_class := YouTubeMedia; a_element := Media.element (Media.this s);
              a_media := d; a_promise := length (promises (Media.world s)) |} in
  Media.load_callback I d s =
    (Ok (strict_eq_str ty "application/x-youtube"),
     {| Media.this := {| Media.element := Media.element (Media.this s);
                         Media.mediaFiles := Media.mediaFiles (Media.this s);
                         Media.promisePlay := Media.promisePlay (Media.this s);
                         Media.media := SAdapter a |};
        Media.world :=
          {| arrays := arrays (Media.world s);
             promises := promises (Media.world s) ++ [Fulfilled];
             jobs := jobs (Media.world s);
             trace := trace (Media.world s)
                        ++ [EvNew YouTubeMedia (Media.element (Media.this s)) d;
                            EvCanPlayType a ty] |} |}).
Proof.
  intros Hif Hsrc Hty Hsp a.
  unfold Media.load_callback. unfold bind at 1.
  assert (Hsel : Media.load_select I d s =
            (Ok tt, Media.with_media (SAdapter a)
               {| Media.this := Media.this s;
                  Media.world := snd (Media.new_adapter I YouTubeMedia
                                        (Media.element (Media.this s)) d
                                        (Media.world s)) |})).
  { unfold Media.load_select.
    unfold bind at 1. unfold gets. rewrite Hif.
    unfold try_catch, bind at 1, Media.liftW.
    rewrite (_loadIframeSource_spec I _ _ _ _ Hsrc), Hsp.
    unfold bind at 1. rewrite new_youtube. reflexivity. }
  rewrite Hsel. unfold bind at 1. unfold lift_result. rewrite Hty.
  unfold Media.canPlayType, Media.adapter_canPlayType, Media.adapter_has,
    YouTubeMedia.canPlayType, log. unfold_monad.
  unfold set_trace, set_promises, a. simpl.
  destruct (strict_eq_str ty "application/x-youtube") eqn:E; simpl.
  - rewrite Hty. simpl. rewrite E. simpl. now rewrite <- app_assoc.
  - now rewrite <- app_assoc.
Qed.

(** X18. On an iframe whose single descriptor the URL tests give to
    YouTube, [load()] always returns normally -- whatever the MIME type of
    the descriptor, playable or not -- with a [YouTubeMedia] adapter built
    from the element and the descriptor as backend; it has called
    [canPlayType] once and nothing else, and the one microtask it leaves
    runs the adapter's [load] (a [console.log] of the adapter) and empties
    the queue. *)
Theorem load_youtube_page (s : Media.State) (d url ty : value) :
  isIframe I (Media.element (Media.this s)) = true ->
  Media.files s = [Some d] ->
  get_prop d "src" = Ok url ->
  get_prop d "type" = Ok ty ->
  spec_iframe_adapter I url = Some YouTubeMedia ->
  jobs (Media.world s) = [] ->
  let a := {| a_class := YouTubeMedia; a_element := Media.element (Media.this s);
              a_media := d; a_promise := length (promises (Media.world s)) |} in
  let s1 := snd (Media.load I s) in
  let s2 := Media.run_job I s1 in
  fst (Media.load I s) = Ok tt /\
  Media.media (Media.this s1) = SAdapter a /\
  trace (Media.world s1) =
    trace (Media.world s)
      ++ [EvNew YouTubeMedia (Media.element (Media.this s)) d; EvCanPlayType a ty] /\
  trace (Media.world s2) = trace (Media.world s1) ++ [EvConsoleLog a] /\
  jobs (Media.world s2) = [].
Proof.
  intros Hif Hf Hsrc Hty Hsp Hj a s1 s2.
  pose proof (load_callback_youtube s d url ty Hif Hsrc Hty Hsp) as Hcb.
  cbv zeta in Hcb. fold a in Hcb.
  assert (Hload : Media.load I s =
            (Ok tt,
             {| Media.this := {| Media.element := Media.element (Media.this s);
                                 Media.mediaFiles := Media.mediaFiles (Media.this s);
                                 Media.promisePlay := Media.promisePlay (Media.this s);
                                 Media.media := SAdapter a |};
                Media.world :=
                  {| arrays := arrays (Media.world s);
                     promises := promises (Media.world s) ++ [Fulfilled; Pending []];
                     jobs := [JRun CbLoad (S (length (promises (Media.world s))))];
                     trace := trace (Media.world s)
                                ++ [EvNew YouTubeMedia (Media.element (Media.this s)) d;
                                    EvCanPlayType a ty] |} |})).
  { rewrite load_nonempty by (rewrite Hf; discriminate).
    rewrite Hf. simpl. unfold bind at 1. rewrite Hcb.
    assert (Hfin : forall st, Media.media (Media.this st) = SAdapter a ->
              promises (Media.world st) = promises (Media.world s) ++ [Fulfilled] ->
              Media.load_finish st =
                (Ok tt, {| Media.this := Media.this st;
                           Media.world :=
                             {| arrays := arrays (Media.world st);
                                promises := promises (Media.world st) ++ [Pending []];
                                jobs := jobs (Media.world st)
                                          ++ [JRun CbLoad (length (promises (Media.world st)))];
                                trace := trace (Media.world st) |} |})).
    { intros st Hm Hp. unfold Media.load_finish. unfold_monad. rewrite Hm.
      rewrite then_fulfilled; [reflexivity|].
      rewrite Hp. apply lookup_snoc. }
    destruct (strict_eq_str ty "application/x-youtube"); unfold ret;
      rewrite Hfin by reflexivity; simpl; rewrite Hj, length_app; simpl;
      rewrite <- app_assoc; simpl;
      replace (length (promises (Media.world s)) + 1)
        with (S (length (promises (Media.world s)))) by lia; reflexivity. }
  unfold s2, s1. rewrite Hload. cbn [fst snd Media.world Media.this Media.media trace].
  split; [reflexivity|]. split; [reflexivity|]. split; [reflexivity|].
  unfold Media.run_job. cbn [Media.world Media.this jobs Media.media].
  unfold Media.run_callback. cbn [Media.media].
  unfold Media.call_method, Media.adapter_has, YouTubeMedia.load, log, modify.
  cbn [a_class a]. change (YouTubeMedia.has "load") with true.
  change (String.eqb "load" "load") with true. cbv beta iota.
  set (w := set_trace _ _).
  assert (Hq : promises w !! S (length (promises (Media.world s)))
               = Some (Pending [])) by apply lookup_snoc2.
  destruct (settle_pending _ _ None w Hq) as (_ & H2 & H3 & _).
  cbn [Media.world]. split; [exact H3 | exact H2].
Qed.

End YouTubePage.

(** *** [play()] followed by [pause()] *)

Lemma settle_frame q o w :
  trace (settle q o w) = trace w /\
  exists extra, jobs (settle q o w) = jobs w ++ extra.
Proof.
  unfold settle.
  destruct (promises w !! q) as [[rs| |e]|]; simpl;
    try (split; [reflexivity | exists []; now rewrite app_nil_r]).
  destruct o; simpl; eauto.
Qed.

Section PlayThenPause.
Variable I : Imports.

Lemma run_job_cons s j rest :
  jobs (Media.world s) = j :: rest ->
  Media.run_job I s =
    {| Media.this := Media.this s;
       Media.world :=
         match j with
         | JRun cb q =>
             match Media.run_callback I cb (Media.this s)
                     (set_jobs (fun _ => rest) (Media.world s)) with
             | (Ok _, w1) => settle q None w1
             | (Throw e, w1) => settle q (Some e) w1
             end
         | JPass e q => settle q (Some e) (set_jobs (fun _ => rest) (Media.world s))
         end |}.
Proof. intros H. unfold Media.run_job. now rewrite H. Qed.

Lemma call_method_adapter a m w :
  Media.adapter_has I a m = true ->
  a_class a <> YouTubeMedia ->
  trace (snd (Media.call_method I (TAdapter a) m [] w)) =
    trace w ++ [EvCall (TAdapter a) m []] /\
  jobs (snd (Media.call_method I (TAdapter a) m [] w)) = jobs w.
Proof.
  intros Hhas Hc. unfold Media.call_method, log. unfold_monad. rewrite Hhas.
  destruct (a_class a); try congruence;
    destruct (ext_returns I _ m); simpl; auto.
Qed.

Lemma has_method_not_youtube a m :
  Media.adapter_has I a m = true ->
  m = "play" \/ m = "pause" ->
  a_class a <> YouTubeMedia.
Proof.
  unfold Media.adapter_has. intros H Hm Hc. rewrite Hc in H.
  destruct Hm as [-> | ->]; discriminate H.
Qed.

(** One microtask that calls [m] on the adapter [a]. *)
Lemma run_call_job s a cb q rest m :
  jobs (Media.world s) = JRun cb q :: rest ->
  Media.adapter_has I a m = true ->
  a_class a <> YouTubeMedia ->
  Media.run_callback I cb (Media.this s) (set_jobs (fun _ => rest) (Media.world s))
    = Media.call_method I (TAdapter a) m [] (set_jobs (fun _ => rest) (Media.world s)) ->
  Media.this (Media.run_job I s) = Media.this s /\
  trace (Media.world (Media.run_job I s)) =
    trace (Media.world s) ++ [EvCall (TAdapter a) m []] /\
  exists extra, jobs (Media.world (Media.run_job I s)) = rest ++ extra.
Proof.
  intros Hj Hhas Hc Hcb. rewrite (run_job_cons s _ _ Hj). cbn [Media.this Media.world].
  rewrite Hcb.
  destruct (call_method_adapter a m (set_jobs (fun _ => rest) (Media.world s)) Hhas Hc)
    as (Ht & Hjb).
  destruct (Media.call_method I (TAdapter a) m [] _) as [[u|e] w1];
    simpl in Ht, Hjb;
    match goal with
    | |- context [settle q ?o w1] =>
        destruct (settle_frame q o w1) as (Hst & extra & Hsj)
    end;
    (split; [reflexivity|]); rewrite Hst, Hsj, Ht, Hjb; simpl; eauto.
Qed.

(** The state after [play()] and then [pause()], from an empty queue, with
    a backend that has a [pause] method. *)
Lemma play_pause_state s a :
  Media.media (Media.this s) = SAdapter a ->
  Media.adapter_has I a "pause" = true ->
  jobs (Media.world s) = [] ->
  let n := length (promises (Media.world s)) in
  Media.pause I (snd (Media.play s)) =
    (Ok tt,
     {| Media.this :=
          {| Media.element := Media.element (Media.this s);
             Media.mediaFiles := Media.mediaFiles (Media.this s);
             Media.promisePlay := Some (S n);
             Media.media := SAdapter a |};
        Media.world :=
          {| arrays := arrays (Media.world s);
             promises := <[S n := Pending [(CbPause (TAdapter a), S (S n))]]>
                           ((promises (Media.world s) ++ [Fulfilled; Pending []])
                              ++ [Pending []]);
             jobs := [JRun CbPlayOuter (S n)];
             trace := trace (Media.world s) |} |}).
Proof.
  intros Hm Hhas Hj n. rewrite play_eq. cbn [snd].
  unfold Media.pause. unfold_monad. cbn [Media.this Media.world Media.media
                                         Media.promisePlay Media.element].
  rewrite Hm, Hhas.
  cbn [Media.this Media.world Media.promisePlay].
  rewrite (then_pending _ []) by (cbn [promises]; apply lookup_snoc2).
  cbn [promises jobs arrays trace app]. rewrite Hj.
  rewrite length_app. cbn [length app].
  replace (length (promises (Media.world s)) + 2) with (S (S n)) by (unfold n; lia).
  reflexivity.
Qed.

(** The promises after [play()] and [pause()]. *)
Lemma play_pause_lookup (P : list pstate) (t : Target) (i : nat) (st : pstate) :
  let n := length P in
  let L := <[S n := Pending [(CbPause t, S (S n))]]>
             ((P ++ [Fulfilled; Pending []]) ++ [Pending []]) in
  P !! i = Some st ->
  length L = S (S (S n)) /\
  L !! i = Some st /\
  L !! S n = Some (Pending [(CbPause t, S (S n))]) /\
  L !! S (S n) = Some (Pending []).
Proof.
  intros n L Hi. pose proof (lookup_lt_Some _ _ _ Hi) as Hlt. fold n in Hlt.
  assert (Hlen : length ((P ++ [Fulfilled; Pending []]) ++ [Pending []])
                 = S (S (S n))).
  { rewrite !length_app. simpl. fold n. lia. }
  unfold L. repeat split.
  - now rewrite length_insert.
  - rewrite list_lookup_insert_ne by lia.
    rewrite lookup_app_l by (rewrite length_app; simpl; fold n; lia).
    rewrite lookup_app_l by (fold n; lia). exact Hi.
  - apply list_lookup_insert_eq. lia.
  - rewrite list_lookup_insert_ne by lia.
    replace (S (S n)) with (length (P ++ [Fulfilled; Pending []]))
      by (rewrite length_app; simpl; fold n; lia).
    apply lookup_snoc.
Qed.

(** X19. With a backend whose readiness promise is already fulfilled and
    which has [play] and [pause] methods, [play()] directly followed by
    [pause()] calls nothing at once; the three microtasks that follow call
    [play] on the backend and then [pause] on it, in that order. *)
Theorem play_then_pause_in_order (s : Media.State) (a : Adapter) :
  Media.media (Media.this s) = SAdapter a ->
  Media.adapter_has I a "play" = true ->
  Media.adapter_has I a "pause" = true ->
  promises (Media.world s) !! a_promise a = Some Fulfilled ->
  jobs (Media.world s) = [] ->
  let s2 := snd (Media.pause I (snd (Media.play s))) in
  let s5 := Media.run_job I (Media.run_job I (Media.run_job I s2)) in
  fst (Media.pause I (snd (Media.play s))) = Ok tt /\
  trace (Media.world s2) = trace (Media.world s) /\
  trace (Media.world s5) =
    trace (Media.world s)
      ++ [EvCall (TAdapter a) "play" []; EvCall (TAdapter a) "pause" []].
Proof.
  intros Hm Hplay Hpause Hready Hj s2 s5.
  pose proof (has_method_not_youtube a "play" Hplay (or_introl eq_refl)) as Hny.
  pose proof (play_pause_state s a Hm Hpause Hj) as Hpp. cbv zeta in Hpp.
  set (n := length (promises (Media.world s))) in *.
  destruct (play_pause_lookup (promises (Media.world s)) (TAdapter a)
              (a_promise a) Fulfilled Hready) as (Hlen & Hi & Hsn & _).
  fold n in Hlen, Hi, Hsn.
  set (L := <[S n := Pending [(CbPause (TAdapter a), S (S n))]]>
              ((promises (Media.world s) ++ [Fulfilled; Pending []])
                 ++ [Pending []])) in *.
  unfold s5, s2. rewrite Hpp. cbn [fst snd Media.world trace].
  split; [reflexivity|]. split; [reflexivity|].
  (* first microtask: the closure of play registers the inner call *)
  set (st2 := {| Media.this := _; Media.world := _ |}).
  assert (H3 : Media.this (Media.run_job I st2) = Media.this st2 /\
               trace (Media.world (Media.run_job I st2)) = trace (Media.world s) /\
               jobs (Media.world (Media.run_job I st2)) =
                 [JRun CbPlayInner (S (S (S n)));
                  JRun (CbPause (TAdapter a)) (S (S n))]).
  { assert (Hcb : Media.run_callback I CbPlayOuter (Media.this st2)
                    (set_jobs (fun _ => []) (Media.world st2)) =
                  (Ok tt, {| arrays := arrays (Media.world s);
                             promises := L ++ [Pending []];
                             jobs := [JRun CbPlayInner (S (S (S n)))];
                             trace := trace (Media.world s) |})).
    { unfold st2. cbn [Media.this Media.world]. unfold Media.run_callback.
      cbn [Media.media]. unfold bind.
      rewrite then_fulfilled by (unfold set_jobs; cbn [promises]; exact Hi).
      unfold ret, set_jobs. cbn [promises jobs trace arrays app].
      fold L. now rewrite Hlen. }
    rewrite (run_job_cons st2 (JRun CbPlayOuter (S n)) []) by reflexivity.
    cbn [Media.this Media.world]. rewrite Hcb.
    set (w1 := {| arrays := _; promises := L ++ [Pending []]; jobs := _; trace := _ |}).
    assert (Hq : promises w1 !! S n = Some (Pending [(CbPause (TAdapter a), S (S n))])).
    { unfold w1. cbn [promises]. rewrite lookup_app_l by lia. exact Hsn. }
    destruct (settle_pending _ _ None w1 Hq) as (_ & Hjb & Htr & _).
    rewrite Htr, Hjb. split; [reflexivity|]. split; reflexivity. }
  destruct H3 as (Ht3 & Htr3 & Hj3).
  set (st3 := Media.run_job I st2) in *.
  (* second microtask: play *)
  destruct (run_call_job st3 a CbPlayInner (S (S (S n)))
              [JRun (CbPause (TAdapter a)) (S (S n))] "play" Hj3 Hplay Hny)
    as (Ht4 & Htr4 & extra & Hj4).
  { unfold Media.run_callback. rewrite Ht3. unfold st2. cbn [Media.this Media.media].
    now rewrite Hplay. }
  set (st4 := Media.run_job I st3) in *.
  (* third microtask: pause *)
  destruct (run_call_job st4 a (CbPause (TAdapter a)) (S (S n)) extra "pause"
              Hj4 Hpause Hny) as (_ & Htr5 & _); [reflexivity|].
  rewrite Htr5, Htr4, Htr3. now rewrite <- app_assoc.
Qed.

Lemma settle_lookup_ne q o w i :
  i <> q -> promises (settle q o w) !! i = promises w !! i.
Proof.
  intros Hne. unfold settle.
  destruct (promises w !! q) as [[rs| |e]|]; try reflexivity.
  destruct o; simpl; now rewrite list_lookup_insert_ne by congruence.
Qed.

Lemma call_method_promises t m args w :
  promises (snd (Media.call_method I t m args w)) = promises w.
Proof.
  unfold Media.call_method, YouTubeMedia.load, log. unfold_monad.
  destruct t as [a|el].
  - destruct (Media.adapter_has I a m); [|reflexivity].
    destruct (a_class a); simpl;
      try (destruct (ext_returns I _ m); reflexivity).
    destruct (String.eqb m "load"); reflexivity.
  - destruct (element_has el m); reflexivity.
Qed.

(** X20. With a backend whose readiness promise is still pending and
    which has a [pause] method, [play()] directly followed by [pause()]
    and the two microtasks they leave end with [pause] called on the
    backend, the queue empty, and the call of [play] still waiting as a
    reaction on the readiness promise: the pause is delivered while the
    play is not. *)
Theorem pause_delivered_while_play_waits
    (s : Media.State) (a : Adapter) (rs : list (callback * nat)) :
  Media.media (Media.this s) = SAdapter a ->
  Media.adapter_has I a "pause" = true ->
  promises (Media.world s) !! a_promise a = Some (Pending rs) ->
  jobs (Media.world s) = [] ->
  let s2 := snd (Media.pause I (snd (Media.play s))) in
  let s4 := Media.run_job I (Media.run_job I s2) in
  trace (Media.world s4) =
    trace (Media.world s) ++ [EvCall (TAdapter a) "pause" []] /\
  jobs (Media.world s4) = [] /\
  exists q, promises (Media.world s4) !! a_promise a
            = Some (Pending (rs ++ [(CbPlayInner, q)])).
Proof.
  intros Hm Hpause Hpend Hj s2 s4.
  pose proof (has_method_not_youtube a "pause" Hpause (or_intror eq_refl)) as Hny.
  pose proof (play_pause_state s a Hm Hpause Hj) as Hpp. cbv zeta in Hpp.
  set (n := length (promises (Media.world s))) in *.
  destruct (play_pause_lookup (promises (Media.world s)) (TAdapter a)
              (a_promise a) (Pending rs) Hpend) as (Hlen & Hi & Hsn & Hssn).
  fold n in Hlen, Hi, Hsn, Hssn.
  pose proof (lookup_lt_Some _ _ _ Hpend) as Hlt. fold n in Hlt.
  set (L := <[S n := Pending [(CbPause (TAdapter a), S (S n))]]>
              ((promises (Media.world s) ++ [Fulfilled; Pending []])
                 ++ [Pending []])) in *.
  unfold s4, s2. rewrite Hpp. cbn [snd].
  set (st2 := {| Media.this := _; Media.world := _ |}).
  set (L' := <[a_promise a := Pending (rs ++ [(CbPlayInner, S (S (S n)))])]>
               (L ++ [Pending []])).
  assert (Hcb : Media.run_callback I CbPlayOuter (Media.this st2)
                  (set_jobs (fun _ => []) (Media.world st2)) =
                (Ok tt, {| arrays := arrays (Media.world s);
                           promises := L'; jobs := [];
                           trace := trace (Media.world s) |})).
  { unfold st2. cbn [Media.this Media.world]. unfold Media.run_callback.
    cbn [Media.media]. unfold bind.
    rewrite (then_pending _ rs) by (unfold set_jobs; cbn [promises]; exact Hi).
    unfold ret, set_jobs. cbn [promises jobs trace arrays app].
    fold L. rewrite Hlen. reflexivity. }
  assert (HL'i : L' !! a_promise a
                 = Some (Pending (rs ++ [(CbPlayInner, S (S (S n)))]))).
  { unfold L'. apply list_lookup_insert_eq. rewrite length_app, Hlen. lia. }
  assert (HL'sn : L' !! S n = Some (Pending [(CbPause (TAdapter a), S (S n))])).
  { unfold L'. rewrite list_lookup_insert_ne by lia.
    rewrite lookup_app_l by lia. exact Hsn. }
  assert (HL'ssn : L' !! S (S n) = Some (Pending [])).
  { unfold L'. rewrite list_lookup_insert_ne by lia.
    rewrite lookup_app_l by lia. exact Hssn. }
  (* first microtask *)
  set (w1 := {| arrays := arrays (Media.world s); promises := L'; jobs := [];
                trace := trace (Media.world s) |}) in Hcb.
  set (st3 := Media.run_job I st2).
  assert (H3 : Media.this st3 = Media.this st2 /\
               Media.world st3 = settle (S n) None w1).
  { unfold st3.
    rewrite (run_job_cons st2 (JRun CbPlayOuter (S n)) []) by reflexivity.
    cbn [Media.this Media.world]. now rewrite Hcb. }
  destruct H3 as (Ht3 & Hw3).
  destruct (settle_pending (S n) _ None w1 HL'sn) as (_ & Hj3 & Htr3 & _).
  cbn [map fst snd jobs trace w1 app] in Hj3, Htr3.
  (* second microtask *)
  assert (Hjobs3 : jobs (Media.world st3) = [JRun (CbPause (TAdapter a)) (S (S n))]).
  { now rewrite Hw3. }
  rewrite (run_job_cons st3 _ _ Hjobs3). cbn [Media.this Media.world].
  unfold Media.run_callback.
  set (w3 := set_jobs (fun _ => []) (Media.world st3)).
  destruct (call_method_adapter a "pause" w3 Hpause Hny) as (Htr & Hjb).
  pose proof (call_method_promises (TAdapter a) "pause" [] w3) as Hpr.
  assert (Hw3p : promises w3 = promises (settle (S n) None w1)).
  { unfold w3, set_jobs. cbn [promises]. now rewrite Hw3. }
  assert (Hw3t : trace w3 = trace (Media.world s)).
  { unfold w3, set_jobs. cbn [trace]. now rewrite Hw3. }
  destruct (Media.call_method I (TAdapter a) "pause" [] w3) as [[u|e] w4];
    cbn [snd] in Htr, Hjb, Hpr;
    match goal with
    | |- context [settle (S (S n)) ?o w4] =>
        assert (Hq : promises w4 !! S (S n) = Some (Pending []))
          by (rewrite Hpr, Hw3p, settle_lookup_ne by lia; exact HL'ssn);
        destruct (settle_pending (S (S n)) _ o w4 Hq) as (_ & Hj4 & Htr4 & _);
        rewrite Htr4, Hj4, Htr, Hjb, Hw3t;
        (split; [reflexivity|]); (split; [reflexivity|]);
        exists (S (S (S n)));
        rewrite settle_lookup_ne by lia;
        rewrite Hpr, Hw3p, settle_lookup_ne by lia; exact HL'i
    end.
Qed.

End PlayThenPause.

(** *** The constructor, [destroy] and [pause] *)

Section Lifecycle.
Variable I : Imports.

(** X21. On an iframe element the constructor does nothing but allocate
    the list: the new object has no backend ([this.media] is [undefined])
    and a [null] [promisePlay]; its list is a new array, no array that
    existed is touched, and no promise, microtask or adapter call is
    made. *)
Theorem constructor_iframe_effect (el : Element) (w : World) :
  isIframe I el = true ->
  Media.constructor I el w =
    (Ok {| Media.element := el; Media.mediaFiles := length (arrays w);
           Media.promisePlay := None; Media.media := SUndefined |},
     {| arrays := arrays w
                    ++ [[Some (VObj [("type", predictType I (VStr (el_src el)));
                                     ("src", VStr (el_src el))])]];
        promises := promises w; jobs := jobs w; trace := trace w |}).
Proof.
  intros Hif. unfold Media.constructor, Media._getMediaFiles, new_array, array_push.
  unfold_monad. rewrite Hif. unfold set_arrays. simpl.
  rewrite lookup_snoc. simpl.
  rewrite insert_app_r_alt by lia. rewrite Nat.sub_diag. reflexivity.
Qed.

(** X22. [destroy()] hands over to the backend and does nothing else: a
    backend that has a [destroy] method is called exactly once, and the
    call returns normally exactly when the backend's does; a backend
    without one makes it throw [TypeError: destroy is not a function] with
    nothing changed.  Either way the [Media] object keeps its backend, its
    list and its [promisePlay]. *)
Theorem destroy_delegates (s : Media.State) (a : Adapter) :
  Media.media (Media.this s) = SAdapter a ->
  (Media.adapter_has I a "destroy" = true ->
   trace (Media.world (snd (Media.destroy I s))) =
     trace (Media.world s) ++ [EvCall (TAdapter a) "destroy" []] /\
   (fst (Media.destroy I s) = Ok tt <->
    ext_returns I (a_class a) "destroy" = true)) /\
  (Media.adapter_has I a "destroy" = false ->
   Media.destroy I s = (Throw (TypeError "destroy is not a function"), s)) /\
  Media.this (snd (Media.destroy I s)) = Media.this s.
Proof.
  intros Hm. split; [|split; [|apply destroy_this]]; intros Hhas.
  - unfold Media.destroy, Media.call_method, log. unfold_monad.
    rewrite Hm, Hhas.
    unfold Media.adapter_has in Hhas.
    destruct (a_class a) eqn:Ec; simpl in *; try discriminate Hhas;
      destruct (ext_returns I _ "destroy"); simpl;
      (split; [reflexivity | split; congruence]).
  - unfold Media.destroy, Media.call_method. unfold_monad.
    rewrite Hm, Hhas. simpl. now destruct s.
Qed.


End Lifecycle.

(** *** Instances of the further properties *)

Lemma element_and_promisePlay_persist_witness :
  let s := fresh youtube_page
             [Some (descriptor "application/x-youtube"
                      "https://www.youtube.com/embed/abc")] in
  let quiet := [CLoad; CPause; CSetSrc (VObj []); CMicrotask; CDestroy] in
  let s' := run host [CPlay] s in
  forallb (fun c => negb (is_play c)) quiet = true /\
  Media.promisePlay (Media.this s') <> None /\
  Media.element (Media.this (run host (CPlay :: quiet) s)) = youtube_page /\
  Media.promisePlay (Media.this (run host quiet s)) = None /\
  Media.promisePlay (Media.this (run host quiet s')) <> None.
Proof.
  intros s quiet s'.
  split; [reflexivity|]. split; [discriminate|].
  destruct (element_and_promisePlay_persist host (CPlay :: quiet) s) as (He & _).
  destruct (element_and_promisePlay_persist host quiet s) as (_ & Hq & _).
  destruct (element_and_promisePlay_persist host quiet s') as (_ & _ & Hp).
  split; [exact He|]. split; [apply Hq; reflexivity | apply Hp; discriminate].
Defined.

Lemma backend_and_list_rebinding_witness :
  let s := after (Media.load host)
             (fresh youtube_page
                [Some (descriptor "application/x-youtube"
                         "https://www.youtube.com/embed/abc")]) in
  let cs := [CPlay; CPause; CMicrotask; CSetSrc (VObj []); CDestroy; CMicrotask] in
  forallb (fun c => negb (is_load c)) cs = true /\
  forallb (fun c => negb (assigns_array c)) cs = true /\
  Media.media (Media.this (run host cs s)) = Media.media (Media.this s) /\
  Media.mediaFiles (Media.this (run host cs s)) = Media.mediaFiles (Media.this s).
Proof.
  intros s cs. split; [reflexivity|]. split; [reflexivity|].
  destruct (backend_and_list_rebinding host cs s) as (Hm & Hf).
  split; [apply Hm | apply Hf]; reflexivity.
Defined.

Lemma methods_need_backend_witness :
  let s := fresh youtube_page
             [Some (descriptor "application/x-youtube"
                      "https://www.youtube.com/embed/abc")] in
  Media.media (Media.this s) = SUndefined /\
  exists msg,
    Media.canPlayType host (VStr "video/mp4") s = (Throw (TypeError msg), s) /\
    Media.pause host s = (Throw (TypeError msg), s) /\
    Media.destroy host s = (Throw (TypeError msg), s).
Proof.
  intros s. split; [reflexivity|].
  apply (methods_need_backend host s (VStr "video/mp4")). left. reflexivity.
Defined.

Lemma set_src_stores_before_it_throws_witness :
  let s := fresh youtube_page
             [Some (descriptor "application/x-youtube"
                      "https://www.youtube.com/embed/abc")] in
  let o := [("src", VStr "movie.mp4"); ("type", VStr "video/mp4")] in
  Media.media (Media.this s) = SUndefined /\
  Media.mediaFiles (Media.this s) < length (arrays (Media.world s)) /\
  fst (Media.get_src (snd (Media.set_src host (VArr 7) s))) = Ok (VArr 7) /\
  (exists msg, fst (Media.set_src host (VObj o) s) = Throw (TypeError msg)) /\
  Media.files (snd (Media.set_src host (VObj o) s)) = Media.files s ++ [Some (VObj o)].
Proof.
  intros s o. split; [reflexivity|].
  assert (Hlt : Media.mediaFiles (Media.this s) < length (arrays (Media.world s)))
    by (simpl; lia).
  split; [exact Hlt|].
  destruct (set_src_stores_before_it_throws host s (or_introl eq_refl)) as (Ha & Ho).
  split; [apply (Ha 7) | apply (Ho o Hlt)].
Defined.

Lemma set_src_by_type_witness :
  let s := after (Media.load host)
             (fresh youtube_page
                [Some (descriptor "application/x-youtube"
                         "https://www.youtube.com/embed/abc")]) in
  (exists a, Media.media (Media.this s) = SAdapter a /\
             Media.adapter_has host a "src" = false) /\
  Media.set_src host (VNum 3) s = (Ok tt, s) /\
  fst (Media.set_src host VNull s) = Ok tt /\
  Media.files (snd (Media.set_src host VNull s)) = Media.files s ++ [Some VNull].
Proof.
  intros s.
  assert (Hm : Media.media (Media.this s) =
               SAdapter {| a_class := YouTubeMedia; a_element := youtube_page;
                           a_media := descriptor "application/x-youtube"
                                        "https://www.youtube.com/embed/abc";
                           a_promise := 0 |}) by reflexivity.
  split; [eexists; split; [exact Hm | reflexivity]|].
  destruct (set_src_by_type host s _ Hm eq_refl) as (Hv & Hn).
  split.
  - apply Hv; simpl; discriminate.
  - apply Hn. simpl. lia.
Defined.

Lemma set_src_notifies_backend_witness :
  let page := iframe "https://www.dailymotion.com/embed/video/x1" in
  let d := descriptor "video/x-dailymotion"
             "https://www.dailymotion.com/embed/video/x1" in
  let s := after (Media.load host_with_src) (fresh page [Some d]) in
  let a := {| a_class := DailymotionMedia; a_element := page; a_media := d;
              a_promise := 0 |} in
  Media.media (Media.this s) = SAdapter a /\
  Media.adapter_has host_with_src a "src" = true /\
  trace (Media.world (snd (Media.set_src host_with_src (VArr 0) s))) =
    trace (Media.world s) ++ [EvCall (TAdapter a) "src" [VArr 0]] /\
  fst (Media.set_src host_with_src (VArr 0) s) = Ok tt.
Proof.
  intros page d s a.
  assert (Hm : Media.media (Media.this s) = SAdapter a) by reflexivity.
  split; [exact Hm|]. split; [reflexivity|].
  destruct (set_src_notifies_backend host_with_src s a 0 Hm) as (Hyes & _).
  destruct (Hyes eq_refl) as (Ht & Hr).
  split; [exact Ht | apply Hr; reflexivity].
Defined.

Lemma setter_appends_to_callers_array_witness :
  let s0 := after (Media.load host)
              (fresh youtube_page
                 [Some (descriptor "application/x-youtube"
                          "https://www.youtube.com/embed/abc")]) in
  let s := snd (literal [Some (descriptor "video/mp4" "a.mp4")] s0) in
  let o := [("src", VStr "b.mp4"); ("type", VStr "video/mp4")] in
  let s2 := snd (Media.set_src host (VObj o) (snd (Media.set_src host (VArr 1) s))) in
  1 < length (arrays (Media.world s)) /\
  array_get 1 (Media.world s2) =
    [Some (descriptor "video/mp4" "a.mp4"); Some (VObj o)] /\
  fst (Media.get_src s2) = Ok (VArr 1) /\
  array_get 0 (Media.world s2) = array_get 0 (Media.world s).
Proof.
  intros s0 s o s2.
  assert (Hlt : 1 < length (arrays (Media.world s))) by (simpl; lia).
  split; [exact Hlt|].
  destruct (setter_appends_to_callers_array host s 1 o Hlt) as (H1 & H2 & H3).
  split; [exact H1|]. split; [exact H2|]. apply H3. simpl. lia.
Defined.

Lemma canPlayType_youtube_witness :
  let d := descriptor "application/x-youtube" "https://www.youtube.com/embed/abc" in
  let s := after (Media.load host) (fresh youtube_page [Some d]) in
  let a := {| a_class := YouTubeMedia; a_element := youtube_page; a_media := d;
              a_promise := 0 |} in
  Media.media (Media.this s) = SAdapter a /\
  a_class a = YouTubeMedia /\
  fst (Media.canPlayType host (VStr "application/x-youtube") s) = Ok true /\
  fst (Media.canPlayType host (VStr "video/mp4") s) <> Ok true.
Proof.
  intros d s a.
  assert (Hm : Media.media (Media.this s) = SAdapter a) by reflexivity.
  split; [exact Hm|]. split; [reflexivity|].
  destruct (canPlayType_youtube host s a (VStr "application/x-youtube") Hm eq_refl)
    as (Hyes & _).
  destruct (canPlayType_youtube host s a (VStr "video/mp4") Hm eq_refl) as (Hno & _).
  split.
  - apply Hyes. split; reflexivity.
  - intros H. apply Hno in H. destruct H as [H _]. discriminate H.
Defined.



Lemma load_throws_on_null_entry_witness :
  let s := fresh youtube_page [Some VNull] in
  Media.files s = [] ++ Some VNull :: [] /\
  (exists e, fst (Media.load host s) = Throw e) /\
  exists msg a,
    fst (Media.load host s) = Throw (TypeError msg) /\
    Media.media (Media.this (snd (Media.load host s))) = SAdapter a /\
    a_class a = NativeMedia /\ a_media a = VNull.
Proof.
  intros s. split; [reflexivity|].
  destruct (load_throws_on_null_entry host s s [] [] VNull
              (or_introl eq_refl) eq_refl eq_refl) as (H1 & H2).
  split; [exact H1|]. apply H2. eexists. reflexivity.
Defined.

Lemma play_without_backend_rejects_witness :
  let s := fresh youtube_page
             [Some (descriptor "application/x-youtube"
                      "https://www.youtube.com/embed/abc")] in
  let s1 := Media.run_job host (snd (Media.play s)) in
  Media.media (Media.this s) = SUndefined /\
  jobs (Media.world s) = [] /\
  exists p msg,
    fst (Media.play s) = Ok p /\
    Media.promisePlay (Media.this s1) = Some p /\
    promises (Media.world s1) !! p = Some (Rejected (TypeError msg)) /\
    jobs (Media.world s1) = [] /\
    trace (Media.world s1) = trace (Media.world s).
Proof.
  intros s s1. split; [reflexivity|]. split; [reflexivity|].
  apply (play_without_backend_rejects host s); [left|]; reflexivity.
Defined.

Lemma pause_after_failed_play_is_dropped_witness :
  let d := descriptor "application/x-youtube" "https://www.youtube.com/embed/abc" in
  let s := run host [CPlay; CMicrotask; CLoad; CMicrotask] (fresh youtube_page [Some d]) in
  let a := {| a_class := YouTubeMedia; a_element := youtube_page; a_media := d;
              a_promise := 2 |} in
  let e := TypeError "Cannot read properties of undefined" in
  Media.media (Media.this s) = SAdapter a /\
  Media.promisePlay (Media.this s) = Some 1 /\
  promises (Media.world s) !! 1 = Some (Rejected e) /\
  jobs (Media.world s) = [] /\
  fst (Media.pause host s) = Ok tt /\
  trace (Media.world (Media.run_job host (snd (Media.pause host s))))
    = trace (Media.world s) /\
  jobs (Media.world (Media.run_job host (snd (Media.pause host s)))) = [].
Proof.
  intros d s a e.
  split; [reflexivity|]. split; [reflexivity|]. split; [reflexivity|].
  split; [reflexivity|].
  destruct (pause_after_failed_play_is_dropped host s a 1 e
              eq_refl eq_refl eq_refl eq_refl) as (H1 & _ & H2 & H3).
  split; [exact H1|]. split; [exact H2 | exact H3].
Defined.

Lemma pause_on_youtube_goes_to_element_witness :
  let d := descriptor "application/x-youtube" "https://www.youtube.com/embed/abc" in
  let s := after (Media.load host) (fresh youtube_page [Some d]) in
  let a := {| a_class := YouTubeMedia; a_element := youtube_page; a_media := d;
              a_promise := 0 |} in
  Media.media (Media.this s) = SAdapter a /\
  Media.promisePlay (Media.this s) = None /\
  element_has (Media.element (Media.this s)) "pause" = false /\
  Media.pause host s = (Throw (TypeError "pause is not a function"), s).
Proof.
  intros d s a.
  split; [reflexivity|]. split; [reflexivity|]. split; [reflexivity|].
  destruct (pause_on_youtube_goes_to_element host s a eq_refl eq_refl eq_refl)
    as (_ & Hno).
  apply Hno. reflexivity.
Defined.

Lemma load_youtube_page_witness :
  let d := descriptor "application/x-youtube" "https://www.youtube.com/embed/abc" in
  let s := fresh youtube_page [Some d] in
  let a := {| a_class := YouTubeMedia; a_element := youtube_page; a_media := d;
              a_promise := 0 |} in
  let s1 := snd (Media.load host s) in
  let s2 := Media.run_job host s1 in
  isIframe host (Media.element (Media.this s)) = true /\
  spec_iframe_adapter host (VStr "https://www.youtube.com/embed/abc")
    = Some YouTubeMedia /\
  fst (Media.load host s) = Ok tt /\
  Media.media (Media.this s1) = SAdapter a /\
  trace (Media.world s1) =
    trace (Media.world s)
      ++ [EvNew YouTubeMedia youtube_page d;
          EvCanPlayType a (VStr "application/x-youtube")] /\
  trace (Media.world s2) = trace (Media.world s1) ++ [EvConsoleLog a] /\
  jobs (Media.world s2) = [].
Proof.
  intros d s a s1 s2. split; [reflexivity|]. split; [reflexivity|].
  apply (load_youtube_page host s d (VStr "https://www.youtube.com/embed/abc")
           (VStr "application/x-youtube")); reflexivity.
Defined.

Lemma play_then_pause_in_order_witness :
  let page := iframe "https://www.dailymotion.com/embed/video/x1" in
  let d := descriptor "video/x-dailymotion"
             "https://www.dailymotion.com/embed/video/x1" in
  let s := run host [CLoad; CMicrotask] (fresh page [Some d]) in
  let a := {| a_class := DailymotionMedia; a_element := page; a_media := d;
              a_promise := 0 |} in
  let s2 := snd (Media.pause host (snd (Media.play s))) in
  let s5 := Media.run_job host (Media.run_job host (Media.run_job host s2)) in
  Media.media (Media.this s) = SAdapter a /\
  promises (Media.world s) !! a_promise a = Some Fulfilled /\
  jobs (Media.world s) = [] /\
  fst (Media.pause host (snd (Media.play s))) = Ok tt /\
  trace (Media.world s2) = trace (Media.world s) /\
  trace (Media.world s5) =
    trace (Media.world s)
      ++ [EvCall (TAdapter a) "play" []; EvCall (TAdapter a) "pause" []].
Proof.
  intros page d s a s2 s5.
  split; [reflexivity|]. split; [reflexivity|]. split; [reflexivity|].
  apply (play_then_pause_in_order host s a); reflexivity.
Defined.

Lemma pause_delivered_while_play_waits_witness :
  let d := descriptor "video/x-vimeo" "https://player.vimeo.com/video/1" in
  let s := after (Media.load host) (fresh vimeo_page [Some d]) in
  let a := {| a_class := VimeoMedia; a_element := vimeo_page; a_media := d;
              a_promise := 0 |} in
  let s2 := snd (Media.pause host (snd (Media.play s))) in
  let s4 := Media.run_job host (Media.run_job host s2) in
  Media.media (Media.this s) = SAdapter a /\
  promises (Media.world s) !! a_promise a = Some (Pending [(CbLoad, 1)]) /\
  jobs (Media.world s) = [] /\
  trace (Media.world s4) =
    trace (Media.world s) ++ [EvCall (TAdapter a) "pause" []] /\
  jobs (Media.world s4) = [] /\
  exists q, promises (Media.world s4) !! a_promise a
            = Some (Pending ([(CbLoad, 1)] ++ [(CbPlayInner, q)])).
Proof.
  intros d s a s2 s4.
  split; [reflexivity|]. split; [reflexivity|]. split; [reflexivity|].
  apply (pause_delivered_while_play_waits host s a [(CbLoad, 1)]); reflexivity.
Defined.

Lemma constructor_iframe_effect_witness :
  isIframe host youtube_page = true /\
  Media.constructor host youtube_page empty_world =
    (Ok {| Media.element := youtube_page; Media.mediaFiles := 0;
           Media.promisePlay := None; Media.media := SUndefined |},
     {| arrays := [[Some (descriptor "application/x-youtube"
                            "https://www.youtube.com/embed/abc")]];
        promises := []; jobs := []; trace := [] |}).
Proof.
  split; [reflexivity|].
  apply (constructor_iframe_effect host youtube_page empty_world). reflexivity.
Defined.

Lemma destroy_delegates_witness :
  let page := iframe "https://www.dailymotion.com/embed/video/x1" in
  let d := descriptor "video/x-dailymotion"
             "https://www.dailymotion.com/embed/video/x1" in
  let s := after (Media.load host) (fresh page [Some d]) in
  let a := {| a_class := DailymotionMedia; a_element := page; a_media := d;
              a_promise := 0 |} in
  Media.media (Media.this s) = SAdapter a /\
  Media.adapter_has host a "destroy" = true /\
  trace (Media.world (snd (Media.destroy host s))) =
    trace (Media.world s) ++ [EvCall (TAdapter a) "destroy" []] /\
  fst (Media.destroy host s) = Ok tt /\
  Media.this (snd (Media.destroy host s)) = Media.this s.
Proof.
  intros page d s a.
  split; [reflexivity|]. split; [reflexivity|].
  destruct (destroy_delegates host s a eq_refl) as (Hyes & _ & Hthis).
  destruct (Hyes eq_refl) as (Ht & Hr).
  split; [exact Ht|]. split; [apply Hr; reflexivity | exact Hthis].
Defined.


(** *** The backend the [load] loop leaves selected *)

Section SelectedBackend.
Variable I : Imports.

(** What either dispatcher returns is [null] or an adapter built from the
    element and the descriptor it was given. *)
Lemma chooser_backend el d w m w' :
  (if isIframe I el then Media._loadIframeSource I el d
   else Media._loadNativeSource I el d) w = (Ok m, w') ->
  match m with
  | SAdapter a => a_element a = el /\ a_media a = d
  | SNull => True
  | SUndefined => False
  end.
Proof.
  assert (Hb : forall k m0 w0,
             (a <- Media.new_adapter I k el d ;; ret (SAdapter a)) w = (Ok m0, w0) ->
             match m0 with
             | SAdapter a => a_element a = el /\ a_media a = d
             | SNull => True
             | SUndefined => False
             end).
  { intros k m0 w0. unfold bind, ret.
    destruct (Media.new_adapter I k el d w) as [[a|e] w1] eqn:E; intros H;
      inversion H; subst. apply new_adapter_class in E. tauto. }
  destruct (get_prop d "src") as [url|e] eqn:E.
  - destruct (isIframe I el).
    + rewrite (_loadIframeSource_spec I el d url w E).
      destruct (spec_iframe_adapter I url) as [k|].
      * apply Hb.
      * intros H. inversion H; subst. exact Logic.I.
    + rewrite (_loadNativeSource_spec I el d url w E). apply Hb.
  - rewrite (chooser_no_descriptor I el d e w E). discriminate.
Qed.

(** After the [try] statement of the loop has completed for [d],
    [this.media] is [null] or an adapter built from [this.element] and
    [d]; nothing else of the object has changed. *)
Lemma load_select_backend d s u sel :
  Media.load_select I d s = (Ok u, sel) ->
  match Media.media (Media.this sel) with
  | SAdapter a => a_element a = Media.element (Media.this s) /\ a_media a = d
  | SNull => True
  | SUndefined => False
  end.
Proof.
  unfold Media.load_select. unfold bind at 1. unfold gets.
  unfold try_catch, bind at 1, Media.liftW.
  destruct ((if isIframe I (Media.element (Media.this s))
             then Media._loadIframeSource I (Media.element (Media.this s)) d
             else Media._loadNativeSource I (Media.element (Media.this s)) d)
              (Media.world s)) as [[m|e] w1] eqn:E.
  - intros H. inversion H; subst. simpl. eapply chooser_backend; eauto.
  - cbv beta iota. unfold bind, Media.liftW. cbn [Media.world Media.this].
    destruct (Media.new_adapter I NativeMedia (Media.element (Media.this s)) d w1)
      as [[a|e1] w2] eqn:En; intros H; inversion H; subst. simpl.
    apply new_adapter_class in En. tauto.
Qed.

Lemma examined_callback d s r s' :
  spec_examined I d s r s' -> Media.load_callback I d s = (r, s').
Proof.
  intros H. unfold Media.load_callback, bind, lift_result.
  destruct H as [sel ty b s' Hs Ht Hc | e s' Hs | sel e Hs Ht | sel ty e s' Hs Ht Hc];
    rewrite Hs; try rewrite Ht; auto.
Qed.

Lemma all_rejected_some xs s s' :
  spec_all_rejected I xs s s' ->
  Media.some (Media.load_callback I) xs s = (Ok false, s').
Proof.
  induction 1 as [s | xs s s' _ IH | d xs s s1 s' Hd _ IH]; simpl.
  - reflexivity.
  - exact IH.
  - unfold bind. rewrite (examined_callback _ _ _ _ Hd). exact IH.
Qed.

Lemma all_rejected_element xs s s' :
  spec_all_rejected I xs s s' ->
  Media.element (Media.this s') = Media.element (Media.this s).
Proof.
  intros H. apply all_rejected_some in H.
  pose proof (some_preserves (Media.load_callback I) untouched_by_load
                untouched_refl untouched_trans (load_callback_untouched I) xs s)
    as Hu.
  rewrite H in Hu. simpl in Hu. apply Hu.
Qed.

(** C1. [load()] examines [mediaFiles] in order: for each descriptor it
    selects a backend and asks that backend's [canPlayType] about the
    descriptor's type.  If every descriptor before [d] was so examined and
    reported not playable, then:
    - if the backend selected for [d] reports [d]'s type playable, the loop
      stops at [d]: whatever follows [d] in the list, [load()] continues
      from the state reached at [d]; the backend selected when it ends is
      the adapter that was selected for [d], built from the element and
      from [d]; and no further adapter call is traced, so nothing after
      [d] is examined;
    - if examining [d] throws, [load()] throws that exception from the
      state reached there, and nothing after [d] is examined either. *)
Theorem load_stops_at_first_playable
    (s s1 : Media.State) (pre post : list (option value)) (d : value) :
  Media.files s = pre ++ Some d :: post ->
  spec_all_rejected I pre s s1 ->
  (forall sel ty s2,
      Media.load_select I d s1 = (Ok tt, sel) ->
      get_prop d "type" = Ok ty ->
      Media.canPlayType I ty sel = (Ok true, s2) ->
      Media.load I s = Media.load_finish s2 /\
      (exists a,
          Media.media (Media.this (snd (Media.load I s))) = SAdapter a /\
          Media.media (Media.this sel) = SAdapter a /\
          a_media a = d /\
          a_element a = Media.element (Media.this s)) /\
      trace (Media.world (snd (Media.load I s))) = trace (Media.world s2)) /\
  (forall e s2,
      spec_examined I d s1 (Throw e) s2 ->
      Media.load I s = (Throw e, s2)).
Proof.
  intros Hf Hpre.
  pose proof (all_rejected_some _ _ _ Hpre) as Hsome.
  pose proof (all_rejected_element _ _ _ Hpre) as Hel.
  assert (Hne : Media.files s <> []) by (rewrite Hf; now destruct pre).
  split.
  - intros sel ty s2 Hsel Hty Hcan.
    assert (Hcb : Media.load_callback I d s1 = (Ok true, s2)).
    { apply examined_callback. eapply examined_answer; eauto. }
    assert (Hload : Media.load I s = Media.load_finish s2).
    { rewrite load_nonempty by exact Hne.
      rewrite Hf, (some_app_false _ _ _ _ _ Hsome).
      now rewrite (some_cons_true _ _ _ _ _ Hcb). }
    destruct (load_finish_frame s2) as (Ht & Htr & _).
    pose proof (canPlayType_this I ty sel) as Hthis.
    rewrite Hcan in Hthis. simpl in Hthis.
    destruct (canPlayType_ok I ty sel true s2 Hcan) as [a Ha].
    pose proof (load_select_backend d s1 tt sel Hsel) as Hb.
    rewrite Hthis in Ha. rewrite Ha in Hb. destruct Hb as [Hbe Hbm].
    split; [exact Hload|]. split.
    + exists a. rewrite Hload, Ht, Hthis. repeat split; auto. congruence.
    + now rewrite Hload.
  - intros e s2 Hex.
    rewrite load_nonempty by exact Hne.
    rewrite Hf, (some_app_false _ _ _ _ _ Hsome). simpl. unfold bind.
    now rewrite (examined_callback _ _ _ _ Hex).
Qed.

(** C2. On an iframe element, the [try] statement of the [load] loop
    picks the class for a descriptor by the first URL test that succeeds,
    in the order Dailymotion, Facebook, Twitch, Vimeo, YouTube.  When the
    constructor of that class returns, the statement completes and
    [this.media] is the adapter it returned, of that class and built from
    the element and the descriptor; when no test succeeds [this.media] is
    [null].  In both cases the rest of the object is as before. *)
Theorem iframe_adapter_precedence (s : Media.State) (d url : value) :
  isIframe I (Media.element (Media.this s)) = true ->
  get_prop d "src" = Ok url ->
  match spec_iframe_adapter I url with
  | Some k =>
      forall a w',
        Media.new_adapter I k (Media.element (Media.this s)) d (Media.world s)
          = (Ok a, w') ->
        fst (Media.load_select I d s) = Ok tt /\
        Media.media (Media.this (snd (Media.load_select I d s))) = SAdapter a /\
        Media.world (snd (Media.load_select I d s)) = w' /\
        a_class a = k /\
        a_element a = Media.element (Media.this s) /\
        a_media a = d
  | None =>
      fst (Media.load_select I d s) = Ok tt /\
      Media.media (Media.this (snd (Media.load_select I d s))) = SNull /\
      Media.world (snd (Media.load_select I d s)) = Media.world s
  end /\
  Media.element (Media.this (snd (Media.load_select I d s)))
    = Media.element (Media.this s) /\
  Media.mediaFiles (Media.this (snd (Media.load_select I d s)))
    = Media.mediaFiles (Media.this s) /\
  Media.promisePlay (Media.this (snd (Media.load_select I d s)))
    = Media.promisePlay (Media.this s).
Proof.
  intros Hif Hsrc.
  pose proof (_loadIframeSource_spec I (Media.element (Media.this s)) d url
                (Media.world s) Hsrc) as Hspec.
  split; [|destruct (load_select_untouched I d s) as (He & Hm & Hp & _); auto].
  destruct (spec_iframe_adapter I url) as [k|].
  - intros a w' Hnew.
    assert (Hsel : Media.load_select I d s =
              (Ok tt, {| Media.this :=
                           {| Media.element := Media.element (Media.this s);
                              Media.mediaFiles := Media.mediaFiles (Media.this s);
                              Media.promisePlay := Media.promisePlay (Media.this s);
                              Media.media := SAdapter a |};
                         Media.world := w' |})).
    { unfold Media.load_select.
      unfold bind at 1. unfold gets. rewrite Hif.
      unfold try_catch, bind at 1, Media.liftW. rewrite Hspec.
      unfold bind at 1. rewrite Hnew. reflexivity. }
    rewrite Hsel. cbn [fst snd Media.this Media.world Media.media].
    apply new_adapter_class in Hnew. tauto.
  - assert (Hsel : Media.load_select I d s =
              (Ok tt, {| Media.this :=
                           {| Media.element := Media.element (Media.this s);
                              Media.mediaFiles := Media.mediaFiles (Media.this s);
                              Media.promisePlay := Media.promisePlay (Media.this s);
                              Media.media := SNull |};
                         Media.world := Media.world s |})).
    { unfold Media.load_select.
      unfold bind at 1. unfold gets. rewrite Hif.
      unfold try_catch, bind at 1, Media.liftW. rewrite Hspec.
      destruct s as [th w]. reflexivity. }
    rewrite Hsel. cbn [fst snd Media.this Media.world Media.media]. auto.
Qed.

End SelectedBackend.

(** *** The [catch] branch and the deferred [pause], by the state they leave *)

Section LeftState.
Variable I : Imports.

Lemma new_native_eq el d r w :
  ext_new I NativeMedia el d = Some r ->
  Media.new_adapter I NativeMedia el d w =
    (Ok {| a_class := NativeMedia; a_element := el; a_media := d;
           a_promise := length (promises w) |},
     {| arrays := arrays w;
        promises := promises w ++ [if r then Fulfilled else Pending []];
        jobs := jobs w;
        trace := trace w ++ [EvNew NativeMedia el d] |}).
Proof.
  intros H. unfold Media.new_adapter, log, new_promise. unfold_monad.
  now rewrite H.
Qed.

(** X11. When the entry is [null] or [undefined], so that its URL cannot
    be read, or when the constructor of the class the URL tests name
    throws, the [catch] branch of the [load] loop makes a [NativeMedia]
    adapter built from the same element and the same entry the selected
    backend -- on an iframe element as well -- provided the [NativeMedia]
    constructor returns.  The statement completes; [this.media] is that
    adapter, with the one new promise as its readiness promise; the trace
    gains the constructor call that failed, if any, and the [NativeMedia]
    constructor call; nothing else changes. *)
Theorem load_select_falls_back_to_native (s : Media.State) (d : value) (r : bool) :
  ext_new I NativeMedia (Media.element (Media.this s)) d = Some r ->
  let el := Media.element (Media.this s) in
  let a := {| a_class := NativeMedia; a_element := el; a_media := d;
              a_promise := length (promises (Media.world s)) |} in
  let installed tried :=
    (Ok tt,
     {| Media.this := {| Media.element := el;
                         Media.mediaFiles := Media.mediaFiles (Media.this s);
                         Media.promisePlay := Media.promisePlay (Media.this s);
                         Media.media := SAdapter a |};
        Media.world :=
          {| arrays := arrays (Media.world s);
             promises := promises (Media.world s)
                           ++ [if r then Fulfilled else Pending []];
             jobs := jobs (Media.world s);
             trace := (trace (Media.world s) ++ tried)
                        ++ [EvNew NativeMedia el d] |} |}) in
  (forall e, get_prop d "src" = Throw e ->
             Media.load_select I d s = installed []) /\
  (forall url k,
      get_prop d "src" = Ok url ->
      chosen I el url = Some k ->
      k <> YouTubeMedia ->
      ext_new I k el d = None ->
      Media.load_select I d s = installed [EvNew k el d]).
Proof.
  intros Hr el a installed. split.
  - intros e He. unfold Media.load_select.
    unfold bind at 1. unfold gets.
    unfold try_catch, bind at 1, Media.liftW.
    rewrite (chooser_no_descriptor I _ d e (Media.world s) He).
    cbv beta iota. unfold bind, Media.liftW. cbn [Media.world Media.this].
    rewrite (new_native_eq _ _ r _ Hr).
    unfold installed, Media.set_media, Media.with_media, modify.
    cbn [Media.this Media.world Media.element Media.mediaFiles Media.promisePlay].
    now rewrite app_nil_r.
  - intros url k Hsrc Hch Hny Hn. unfold el in Hch, Hn.
    unfold Media.load_select.
    unfold bind at 1. unfold gets.
    unfold try_catch, bind at 1, Media.liftW.
    destruct (chooser_ext_throws I (Media.element (Media.this s)) d url k
                (Media.world s) Hsrc Hch Hny Hn) as [e He].
    rewrite He.
    cbv beta iota. unfold bind, Media.liftW. cbn [Media.world Media.this].
    rewrite (new_native_eq _ _ r _ Hr).
    unfold installed, Media.set_media, Media.with_media, modify, set_trace.
    cbn [Media.this Media.world Media.element Media.mediaFiles Media.promisePlay
         arrays promises jobs trace].
    reflexivity.
Qed.


End LeftState.

(** *** Instances *)

Lemma load_stops_at_first_playable_witness :
  let d1 := descriptor "video/mp4" "https://www.youtube.com/embed/abc" in
  let d2 := descriptor "application/x-youtube" "https://www.youtube.com/embed/xyz" in
  let d3 := descriptor "video/x-vimeo" "https://player.vimeo.com/video/1" in
  let s := fresh youtube_page [Some d1; Some d2; Some d3] in
  let s1 := snd (Media.canPlayType host (VStr "video/mp4")
                   (snd (Media.load_select host d1 s))) in
  let sel := snd (Media.load_select host d2 s1) in
  let s2 := snd (Media.canPlayType host (VStr "application/x-youtube") sel) in
  let a1 := {| a_class := YouTubeMedia; a_element := youtube_page; a_media := d1;
               a_promise := 0 |} in
  let a2 := {| a_class := YouTubeMedia; a_element := youtube_page; a_media := d2;
               a_promise := 1 |} in
  let t := fresh youtube_page [Some d1; Some VNull; Some d2] in
  Media.files s = [Some d1] ++ Some d2 :: [Some d3] /\
  spec_all_rejected host [Some d1] s s1 /\
  Media.load_select host d2 s1 = (Ok tt, sel) /\
  Media.canPlayType host (VStr "application/x-youtube") sel = (Ok true, s2) /\
  Media.load host s = Media.load_finish s2 /\
  Media.media (Media.this (snd (Media.load host s))) = SAdapter a2 /\
  trace (Media.world (snd (Media.load host s))) =
    [EvNew YouTubeMedia youtube_page d1; EvCanPlayType a1 (VStr "video/mp4");
     EvNew YouTubeMedia youtube_page d2;
     EvCanPlayType a2 (VStr "application/x-youtube")] /\
  fst (Media.load host t) = Throw (TypeError "Cannot read properties of null") /\
  calls (trace (Media.world (snd (Media.load host t)))) = [] /\
  length (trace (Media.world (snd (Media.load host t)))) = 3.
Proof.
  intros d1 d2 d3 s s1 sel s2 a1 a2 t.
  assert (Hrej : spec_all_rejected host [Some d1] s s1).
  { eapply rejected_cons; [|apply rejected_nil].
    eapply (examined_answer host d1 s (snd (Media.load_select host d1 s))
              (VStr "video/mp4")); reflexivity. }
  assert (Hrej' : spec_all_rejected host [Some d1] t
                    (snd (Media.canPlayType host (VStr "video/mp4")
                            (snd (Media.load_select host d1 t))))).
  { eapply rejected_cons; [|apply rejected_nil].
    eapply (examined_answer host d1 t (snd (Media.load_select host d1 t))
              (VStr "video/mp4")); reflexivity. }
  destruct (load_stops_at_first_playable host s s1 [Some d1] [Some d3] d2
              eq_refl Hrej) as (Hplay & _).
  destruct (Hplay sel (VStr "application/x-youtube") s2 eq_refl eq_refl eq_refl)
    as (Hload & (a & Ha & Hsel & _) & Htr).
  destruct (load_stops_at_first_playable host t _ [Some d1] [Some d2] VNull
              eq_refl Hrej') as (_ & Hthrow).
  split; [reflexivity|]. split; [exact Hrej|]. split; [reflexivity|].
  split; [reflexivity|]. split; [exact Hload|].
  split; [rewrite Ha; rewrite <- Hsel; reflexivity|].
  split; [rewrite Htr; reflexivity|].
  rewrite (Hthrow (TypeError "Cannot read properties of null")
             (snd (Media.load_select host VNull
                     (snd (Media.canPlayType host (VStr "video/mp4")
                             (snd (Media.load_select host d1 t))))))).
  - split; [reflexivity|]. split; reflexivity.
  - eapply examined_type_throws; reflexivity.
Defined.

Lemma iframe_adapter_precedence_witness :
  let url := "https://www.dailymotion.com/embed/video/x1?origin=https://www.youtube.com" in
  let page := iframe url in
  let d := descriptor "video/x-dailymotion" url in
  let s := fresh page [Some d] in
  let a := {| a_class := DailymotionMedia; a_element := page; a_media := d;
              a_promise := 0 |} in
  let other := descriptor "video/mp4" "https://example.com/player" in
  let u := fresh unknown_page [Some other] in
  isIframe host (Media.element (Media.this s)) = true /\
  get_prop d "src" = Ok (VStr url) /\
  isDailymotionSource host (VStr url) = true /\
  isYouTubeSource host (VStr url) = true /\
  spec_iframe_adapter host (VStr url) = Some DailymotionMedia /\
  fst (Media.load_select host d s) = Ok tt /\
  Media.media (Media.this (snd (Media.load_select host d s))) = SAdapter a /\
  spec_iframe_adapter host (VStr "https://example.com/player") = None /\
  Media.media (Media.this (snd (Media.load_select host other u))) = SNull.
Proof.
  intros url page d s a other u.
  split; [reflexivity|]. split; [reflexivity|]. split; [reflexivity|].
  split; [reflexivity|]. split; [reflexivity|].
  destruct (iframe_adapter_precedence host s d (VStr url) eq_refl eq_refl)
    as (H & _).
  change (spec_iframe_adapter host (VStr url)) with (Some DailymotionMedia) in H.
  cbv beta iota in H.
  destruct (H a (snd (Media.new_adapter host DailymotionMedia page d (Media.world s)))
              eq_refl) as (Hok & Hmedia & _).
  split; [exact Hok|]. split; [exact Hmedia|]. split; [reflexivity|].
  destruct (iframe_adapter_precedence host u other
              (VStr "https://example.com/player") eq_refl eq_refl) as (H' & _).
  change (spec_iframe_adapter host (VStr "https://example.com/player"))
    with (@None AdapterClass) in H'.
  cbv beta iota in H'. apply H'.
Defined.

Lemma load_select_falls_back_to_native_witness :
  let url := "https://player.twitch.tv/?channel=x" in
  let page := iframe url in
  let d := descriptor "video/x-twitch" url in
  let s := fresh page [Some d] in
  let a := {| a_class := NativeMedia; a_element := page; a_media := d;
              a_promise := 0 |} in
  let n := fresh youtube_page [Some VNull] in
  let b := {| a_class := NativeMedia; a_element := youtube_page; a_media := VNull;
              a_promise := 0 |} in
  isIframe host_twitch_down page = true /\
  ext_new host_twitch_down NativeMedia page d = Some true /\
  chosen host_twitch_down page (VStr url) = Some TwitchMedia /\
  ext_new host_twitch_down TwitchMedia page d = None /\
  fst (Media.load_select host_twitch_down d s) = Ok tt /\
  Media.media (Media.this (snd (Media.load_select host_twitch_down d s)))
    = SAdapter a /\
  trace (Media.world (snd (Media.load_select host_twitch_down d s)))
    = [EvNew TwitchMedia page d; EvNew NativeMedia page d] /\
  Media.media (Media.this (snd (Media.load_select host VNull n))) = SAdapter b.
Proof.
  intros url page d s a n b.
  split; [reflexivity|]. split; [reflexivity|]. split; [reflexivity|].
  split; [reflexivity|].
  destruct (load_select_falls_back_to_native host_twitch_down s d true eq_refl)
    as (_ & Hthrown).
  rewrite (Hthrown (VStr url) TwitchMedia eq_refl eq_refl).
  - split; [reflexivity|]. split; [reflexivity|]. split; [reflexivity|].
    destruct (load_select_falls_back_to_native host n VNull true eq_refl)
      as (Hnull & _).
    rewrite (Hnull (TypeError "Cannot read properties of null") eq_refl).
    reflexivity.
  - discriminate.
  - reflexivity.
Defined.

